(** * Task-Tracker front end: the local state store and its clients

    A shallow embedding of [src/AppProvider.tsx] (the reducer and the ten
    REST wrappers) and of the derived values and handlers of the task-list
    screen ([completionPercentage], [toggleStatus]).

    Conventions of the embedding:
    - a JavaScript object used as a dictionary ([state.tasks]) is a
      [gmap string _] of its own properties; the spread [{...m, [k]: v}]
      is [<[k:=v]> m]; reading a key the object does not own falls
      through to [Object.prototype] ([read]);
    - calling a method on [undefined] or on a value that is not an array
      raises a [TypeError]: the reducer returns [option AppState], the
      percentage [option Q], and [None] stands for that fault;
    - a Number is the exact rational value of a binary64 float, and
      arithmetic rounds to nearest, ties to even ([Number]);
    - [Array.prototype.some], [map] and [filter] are [existsb], [map]
      and stdpp's [filter];
    - an asynchronous client function is a computation that emits a trace
      of events (requests, console output, dispatched commands) and ends
      either normally or by throwing the error axios rejected with. *)

From Stdlib Require Import QArith Qround Qpower Qabs Lqa.
From Stdlib Require Floats.
From stdpp Require Import gmap strings list fin_maps pretty.

Local Open Scope string_scope.
Local Open Scope list_scope.

(** ** Domain types *)

(** Modelled from the spec: [domain/TaskStatus] is not among the sources;
    section 3 of the specification gives the two values. *)
Inductive TaskStatus := OPEN | CLOSED.

#[global] Instance TaskStatus_eq_dec : EqDecision TaskStatus.
Proof. solve_decision. Defined.

(** Modelled from the spec: [domain/TaskPriority] is not among the
    sources; the specification calls it an ordered category. *)
Inductive TaskPriority := HIGH | MEDIUM | LOW.

#[global] Instance TaskPriority_eq_dec : EqDecision TaskPriority.
Proof. solve_decision. Defined.

Module TaskList.

(** Modelled from the spec: [domain/TaskList] is not among the sources;
    identifier, title and optional description as in section 3. *)
Record t := mk {
  id : string;
  title : string;
  description : option string
}.

#[global] Instance eq_dec : EqDecision t.
Proof. solve_decision. Defined.

End TaskList.

Module Task.

(** Modelled from the spec: [domain/Task] is not among the sources;
    the fields are those of section 3 ([createTask] omits [id] and
    [taskListId] from its draft, so both are fields of the entity). *)
Record t := mk {
  id : string;
  taskListId : string;
  title : string;
  priority : TaskPriority;
  dueDate : option string;
  status : TaskStatus
}.

#[global] Instance eq_dec : EqDecision t.
Proof. solve_decision. Defined.

(** [{ ...task, status: s }] *)
Definition with_status (task : t) (s : TaskStatus) : t :=
  {| id := id task; taskListId := taskListId task; title := title task;
     priority := priority task; dueDate := dueDate task; status := s |}.

End Task.

(** ** JavaScript numbers

    A Number is a binary64 float. The finite ones are rationals, and
    the arithmetic of the screen (the quotient of two array lengths and
    a product by 100) stays among them, so a Number is its exact value
    in [Q] and an operation rounds the exact result to the nearest
    binary64, ties to even: 53 significant bits, least exponent -1074.
    Overflow to Infinity (a result of 2^1024 or more) and division by
    zero (which the screen guards against) are not modelled. *)

Module Number.

(** The [e] with [2^e <= q < 2^(e+1)], for positive [q]. *)
Definition floor_log2 (q : Q) : Z :=
  let d := (Z.log2 (Qnum q) - Z.log2 (Zpos (Qden q)))%Z in
  if Qle_bool (2 ^ d) q then d else (d - 1)%Z.

(** The integer nearest to [q], the even one of two at equal distance. *)
Definition nearest_even (q : Q) : Z :=
  let f := Qfloor q in
  match Qcompare (q - inject_Z f) (1 # 2) with
  | Lt => f
  | Gt => (f + 1)%Z
  | Eq => if Z.even f then f else (f + 1)%Z
  end.

(** The exponent of the last bit of the significand of [q]. *)
Definition exponent (q : Q) : Z := Z.max (floor_log2 q - 52) (-1074).

Definition round_pos (q : Q) : Q :=
  (inject_Z (nearest_even (q / 2 ^ exponent q)) * 2 ^ exponent q)%Q.

Definition round (q : Q) : Q :=
  let r := Qred q in
  match Qnum r with
  | Z0 => 0%Q
  | Zpos _ => Qred (round_pos r)
  | Zneg _ => Qred (- round_pos (- r))
  end.

(** An array length: an integer below 2^32, exact in binary64. *)
Definition of_nat (n : nat) : Q := inject_Z (Z.of_nat n).

Definition div (x y : Q) : Q := round (x / y).

Definition mul (x y : Q) : Q := round (x * y).

(** The same quotient and product on the primitive binary64 floats of
    the kernel, read back as a rational; used only to compare [round]
    with them. *)
Definition primitive_percent (c n : nat) : option Q :=
  let of_nat k := PrimFloat.of_uint63 (Uint63.of_Z (Z.of_nat k)) in
  match FloatOps.Prim2SF
          (PrimFloat.mul (PrimFloat.div (of_nat c) (of_nat n)) (of_nat 100%nat)) with
  | SpecFloat.S754_zero _ => Some 0%Q
  | SpecFloat.S754_finite false m e => Some (Qred (inject_Z (Zpos m) * 2 ^ e))
  | _ => None
  end.

End Number.

(** ** The store: [AppState], [Action] and [reducer] *)

Record AppState := mkState {
  taskLists : list TaskList.t;
  tasks : gmap string (list Task.t)
}.

Inductive Action :=
| FETCH_TASKLISTS (payload : list TaskList.t)
| GET_TASKLIST (payload : TaskList.t)
| CREATE_TASKLIST (payload : TaskList.t)
| UPDATE_TASKLIST (payload : TaskList.t)
| DELETE_TASKLIST (payload : string)
| FETCH_TASKS (taskListId : string) (tasks : list Task.t)
| CREATE_TASK (taskListId : string) (task : Task.t)
| GET_TASK (taskListId : string) (task : Task.t)
| UPDATE_TASK (taskListId : string) (taskId : string) (task : Task.t)
| DELETE_TASK (taskListId : string) (taskId : string).

(** [wl.id === id] and [task.id === id] *)
Definition tl_is (i : string) (wl : TaskList.t) : bool :=
  bool_decide (TaskList.id wl = i).

Definition task_is (i : string) (task : Task.t) : bool :=
  bool_decide (Task.id task = i).

(** [l.map((wl) => wl.id === p.id ? p : wl)] *)
Definition replace_tl (p : TaskList.t) (l : list TaskList.t) : list TaskList.t :=
  map (fun wl => if tl_is (TaskList.id p) wl then p else wl) l.

(** [l.map((task) => task.id === i ? p : task)] *)
Definition replace_task (i : string) (p : Task.t) (l : list Task.t) : list Task.t :=
  map (fun task => if task_is i task then p else task) l.

(** The property names every plain object inherits from
    [Object.prototype] (ECMAScript, Annex B included). Each names a
    function, or for [__proto__] the prototype object: a truthy value
    that is neither an array nor iterable. *)
Definition Object_prototype : list string :=
  ["constructor"; "__proto__"; "hasOwnProperty"; "isPrototypeOf";
   "propertyIsEnumerable"; "toLocaleString"; "toString"; "valueOf";
   "__defineGetter__"; "__defineSetter__"; "__lookupGetter__"; "__lookupSetter__"].

(** What [state.tasks[k]] evaluates to: the array the object owns under
    [k], else an inherited value, else [undefined]. ([{...m, [k]: v}]
    defines [k] as an own property, also for the inherited names, and
    the spread copies own properties only.) *)
Inductive Slot :=
| Own (ts : list Task.t)
| Inherited
| Undefined.

Definition read (m : gmap string (list Task.t)) (k : string) : Slot :=
  match m !! k with
  | Some ts => Own ts
  | None => if bool_decide (k ∈ Object_prototype) then Inherited else Undefined
  end.

(** [v || []] used as an array ([[...v, task]], [v.some(...)]): only
    [undefined] is replaced by [[]]; an inherited value is truthy, and
    spreading it or calling [some] on it throws. *)
Definition array_or_empty (v : Slot) : option (list Task.t) :=
  match v with
  | Own ts => Some ts
  | Inherited => None
  | Undefined => Some []
  end.

(** [v.map(...)], [v.filter(...)]: both [undefined] and an inherited
    value throw. *)
Definition array (v : Slot) : option (list Task.t) :=
  match v with
  | Own ts => Some ts
  | Inherited | Undefined => None
  end.

Definition reducer (state : AppState) (action : Action) : option AppState :=
  match action with
  | FETCH_TASKLISTS payload =>
      Some {| taskLists := payload; tasks := tasks state |}
  | GET_TASKLIST payload =>
      Some {| taskLists :=
                if existsb (tl_is (TaskList.id payload)) (taskLists state)
                then replace_tl payload (taskLists state)
                else taskLists state ++ [payload];
              tasks := tasks state |}
  | CREATE_TASKLIST payload =>
      Some {| taskLists := taskLists state ++ [payload]; tasks := tasks state |}
  | UPDATE_TASKLIST payload =>
      Some {| taskLists := replace_tl payload (taskLists state);
              tasks := tasks state |}
  | DELETE_TASKLIST payload =>
      Some {| taskLists := filter (fun wl => TaskList.id wl ≠ payload) (taskLists state);
              tasks := tasks state |}
  | FETCH_TASKS taskListId ts =>
      Some {| taskLists := taskLists state;
              tasks := <[taskListId := ts]> (tasks state) |}
  | CREATE_TASK taskListId task =>
      match array_or_empty (read (tasks state) taskListId) with
      | None => None
      | Some existing =>
          Some {| taskLists := taskLists state;
                  tasks := <[taskListId := existing ++ [task]]> (tasks state) |}
      end
  | GET_TASK taskListId task =>
      match array_or_empty (read (tasks state) taskListId) with
      | None => None
      | Some existingTasks =>
          let taskExists := existsb (task_is (Task.id task)) existingTasks in
          let updatedTasks :=
            if taskExists then replace_task (Task.id task) task existingTasks
            else existingTasks ++ [task] in
          Some {| taskLists := taskLists state;
                  tasks := <[taskListId := updatedTasks]> (tasks state) |}
      end
  | UPDATE_TASK taskListId taskId task =>
      match array (read (tasks state) taskListId) with
      | None => None
      | Some existing =>
          Some {| taskLists := taskLists state;
                  tasks := <[taskListId := replace_task taskId task existing]>
                             (tasks state) |}
      end
  | DELETE_TASK taskListId taskId =>
      match array (read (tasks state) taskListId) with
      | None => None
      | Some existing =>
          Some {| taskLists := taskLists state;
                  tasks := <[taskListId := filter (fun task => Task.id task ≠ taskId) existing]>
                             (tasks state) |}
      end
  end.

Definition initialState : AppState := {| taskLists := []; tasks := ∅ |}.

(** Commands are applied one after the other, in the order they were
    dispatched; a fault stops the run. *)
Fixpoint run (state : AppState) (actions : list Action) : option AppState :=
  match actions with
  | [] => Some state
  | a :: rest =>
      match reducer state a with
      | Some state' => run state' rest
      | None => None
      end
  end.

(** ** axios, as far as the clients depend on it *)

Module Axios.

Record Response := mkResponse {
  status : Z;
  data : option string;
  headers : list (string * string)
}.

(** [error.response] is [undefined] when no response arrived (network
    down, timeout). *)
Record Error := mkError {
  message : string;
  response : option Response
}.

(** What the network did with one request. [parsed] is the body read at
    the type the call site annotates ([axios.get<T>]); TypeScript does
    not check it, and it is looked at only when the promise fulfils. *)
Inductive Wire (A : Type) :=
| Unreachable (reason : string)
| Answered (r : Response) (parsed : A).

Arguments Unreachable {A} reason.
Arguments Answered {A} r parsed.

Inductive Settled (A : Type) :=
| Fulfilled (data : A)
| Rejected (error : Error).

Arguments Fulfilled {A} data.
Arguments Rejected {A} error.

(** axios' default [validateStatus] *)
Definition validateStatus (status : Z) : bool :=
  (200 <=? status)%Z && (status <? 300)%Z.

Definition settle {A : Type} (w : Wire A) : Settled A :=
  match w with
  | Unreachable reason => Rejected {| message := reason; response := None |}
  | Answered r parsed =>
      if validateStatus (status r) then Fulfilled parsed
      else Rejected {| message := ("Request failed with status code " ++ pretty (status r))%string;
                       response := Some r |}
  end.

(** The HTTP call fails: transport error or a status outside 2xx. *)
Definition failed {A : Type} (w : Wire A) : bool :=
  match w with
  | Unreachable _ => true
  | Answered r _ => negb (validateStatus (status r))
  end.

End Axios.

(** ** Asynchronous computations as traces *)

Inductive Method := GET | POST | PUT | DELETE.

(** Modelled from the spec: the drafts are [Omit<TaskList, "id">] and
    [Omit<Task, "id" | "taskListId">] of the absent domain types. *)
Inductive Body :=
| NoBody
| TaskListDraft (title : string) (description : option string)
| TaskListBody (taskList : TaskList.t)
| TaskDraft (title : string) (priority : TaskPriority) (dueDate : option string)
    (status : TaskStatus)
| TaskBody (task : Task.t).

Inductive Logged :=
| LText (s : string)
| LTaskLists (l : list TaskList.t)
| LContext (message : string) (status : option Z) (data : option string)
| LContextHeaders (message : string) (status : option Z) (data : option string)
    (headers : option (list (string * string)))
| LError (error : Axios.Error).

Inductive Event :=
| Request (m : Method) (url : string) (body : Body)
| ConsoleLog (args : list Logged)
| ConsoleError (args : list Logged)
| Dispatch (action : Action).

(** A computation: the events it emitted, then its completion, either a
    thrown error ([inl]) or a value ([inr]). *)
Definition Async (A : Type) : Type := list Event * (Axios.Error + A).

Definition ret {A : Type} (a : A) : Async A := ([], inr a).

Definition throw {A : Type} (error : Axios.Error) : Async A := ([], inl error).

Definition emit (ev : Event) : Async unit := ([ev], inr tt).

Definition bind {A B : Type} (m : Async A) (k : A -> Async B) : Async B :=
  match m with
  | (tr, inl error) => (tr, inl error)
  | (tr, inr a) => let (tr', r) := k a in (tr ++ tr', r)
  end.

Definition try_catch {A : Type} (m : Async A) (handler : Axios.Error -> Async A) : Async A :=
  match m with
  | (tr, inl error) => let (tr', r) := handler error in (tr ++ tr', r)
  | (tr, inr a) => (tr, inr a)
  end.

Notation "'await' x := m 'in' k" := (bind m (fun x => k))
  (at level 10, x name, m at level 100, k at level 200).
Notation "'attempt' m 'catch' error => h" := (try_catch m (fun error => h))
  (at level 10, error name, m at level 200, h at level 200).

(** [await axios.<method>(url, body, jsonHeaders)] *)
Definition await_axios {A : Type} (m : Method) (url : string) (body : Body)
    (w : Axios.Wire A) : Async A :=
  ([Request m url body],
   match Axios.settle w with
   | Axios.Fulfilled data => inr data
   | Axios.Rejected error => inl error
   end).

Definition dispatch (action : Action) : Async unit := emit (Dispatch action).

Definition trace {A : Type} (m : Async A) : list Event := fst m.

Definition completion {A : Type} (m : Async A) : Axios.Error + A := snd m.

(** The commands a trace hands to the store, in order. *)
Fixpoint dispatched (tr : list Event) : list Action :=
  match tr with
  | [] => []
  | Dispatch a :: rest => a :: dispatched rest
  | _ :: rest => dispatched rest
  end.

(** The store after a trace: the reducer applied to every dispatched
    command in turn. *)
Definition after (state : AppState) (tr : list Event) : option AppState :=
  run state (dispatched tr).

(** ** The Remote Store Client: the [api] object of [AppProvider] *)

Module api.

Section Client.

(** [import.meta.env.VITE_API_URL || 'https://tasks-backend-wium.onrender.com'] *)
Variable API_BASE_URL : string.

Definition context (error : Axios.Error) : Logged :=
  LContext (Axios.message error)
           (Axios.status <$> Axios.response error)
           (Axios.response error ≫= Axios.data).

Definition context_headers (error : Axios.Error) : Logged :=
  LContextHeaders (Axios.message error)
                  (Axios.status <$> Axios.response error)
                  (Axios.response error ≫= Axios.data)
                  (Axios.headers <$> Axios.response error).

Definition lists_url : string := (API_BASE_URL ++ "/api/task-lists")%string.

Definition list_url (id : string) : string :=
  (API_BASE_URL ++ "/api/task-lists/" ++ id)%string.

Definition tasks_url (taskListId : string) : string :=
  (API_BASE_URL ++ "/api/task-lists/" ++ taskListId ++ "/tasks")%string.

Definition task_url (taskListId taskId : string) : string :=
  (API_BASE_URL ++ "/api/task-lists/" ++ taskListId ++ "/tasks/" ++ taskId)%string.

Definition fetchTaskLists (w : Axios.Wire (list TaskList.t)) : Async unit :=
  attempt
    (await _ := emit (ConsoleLog [LText "Fetching task lists from:"; LText lists_url]) in
     await data := await_axios GET lists_url NoBody w in
     await _ := emit (ConsoleLog [LText "Task lists response:"; LTaskLists data]) in
     dispatch (FETCH_TASKLISTS data))
  catch error =>
    (await _ := emit (ConsoleError [LText "Error fetching task lists:"; context_headers error]) in
     throw error).

Definition getTaskList (id : string) (w : Axios.Wire TaskList.t) : Async unit :=
  attempt
    (await data := await_axios GET (list_url id) NoBody w in
     dispatch (GET_TASKLIST data))
  catch error =>
    (await _ := emit (ConsoleError [LText "Error getting task list:"; context error]) in
     throw error).

Definition createTaskList (title : string) (description : option string)
    (w : Axios.Wire TaskList.t) : Async unit :=
  attempt
    (await data := await_axios POST lists_url (TaskListDraft title description) w in
     dispatch (CREATE_TASKLIST data))
  catch error =>
    (await _ := emit (ConsoleError [LText "Error creating task list:"; context error]) in
     throw error).

Definition getTask (taskListId taskId : string) (w : Axios.Wire Task.t) : Async unit :=
  attempt
    (await data := await_axios GET (task_url taskListId taskId) NoBody w in
     dispatch (GET_TASK taskListId data))
  catch error =>
    (await _ := emit (ConsoleError [LText "Error getting task:"; context error]) in
     throw error).

Definition updateTaskList (id : string) (taskList : TaskList.t)
    (w : Axios.Wire TaskList.t) : Async unit :=
  attempt
    (await data := await_axios PUT (list_url id) (TaskListBody taskList) w in
     dispatch (UPDATE_TASKLIST data))
  catch error =>
    (await _ := emit (ConsoleError [LText "Error updating task list:"; context error]) in
     throw error).

Definition deleteTaskList (id : string) (w : Axios.Wire unit) : Async unit :=
  attempt
    (await _ := await_axios DELETE (list_url id) NoBody w in
     dispatch (DELETE_TASKLIST id))
  catch error =>
    (await _ := emit (ConsoleError [LText "Error deleting task list:"; context error]) in
     throw error).

Definition fetchTasks (taskListId : string) (w : Axios.Wire (list Task.t)) : Async unit :=
  attempt
    (await data := await_axios GET (tasks_url taskListId) NoBody w in
     dispatch (FETCH_TASKS taskListId data))
  catch error =>
    (await _ := emit (ConsoleError [LText "Error fetching tasks:"; context error]) in
     throw error).

Definition createTask (taskListId : string) (draft : Body) (w : Axios.Wire Task.t) : Async unit :=
  attempt
    (await data := await_axios POST (tasks_url taskListId) draft w in
     dispatch (CREATE_TASK taskListId data))
  catch error =>
    (await _ := emit (ConsoleError [LText "Error creating task:"; context error]) in
     throw error).

Definition updateTask (taskListId taskId : string) (task : Task.t)
    (w : Axios.Wire Task.t) : Async unit :=
  attempt
    (await data := await_axios PUT (task_url taskListId taskId) (TaskBody task) w in
     dispatch (UPDATE_TASK taskListId taskId data))
  catch error =>
    (await _ := emit (ConsoleError [LText "Error updating task:"; context error]) in
     throw error).

Definition deleteTask (taskListId taskId : string) (w : Axios.Wire unit) : Async unit :=
  attempt
    (await _ := await_axios DELETE (task_url taskListId taskId) NoBody w in
     dispatch (DELETE_TASK taskListId taskId))
  catch error =>
    (await _ := emit (ConsoleError [LText "Error deleting task:"; context error]) in
     throw error).

(** The ten operations as one type, each with the type of the body its
    request is answered with. *)
Inductive Call :=
| FetchTaskLists
| GetTaskList (id : string)
| CreateTaskList (title : string) (description : option string)
| UpdateTaskList (id : string) (taskList : TaskList.t)
| DeleteTaskList (id : string)
| FetchTasks (taskListId : string)
| CreateTask (taskListId : string) (draft : Body)
| GetTask (taskListId taskId : string)
| UpdateTask (taskListId taskId : string) (task : Task.t)
| DeleteTask (taskListId taskId : string).

Definition reply (c : Call) : Type :=
  match c with
  | FetchTaskLists => list TaskList.t
  | GetTaskList _ | CreateTaskList _ _ | UpdateTaskList _ _ => TaskList.t
  | DeleteTaskList _ | DeleteTask _ _ => unit
  | FetchTasks _ => list Task.t
  | CreateTask _ _ | GetTask _ _ | UpdateTask _ _ _ => Task.t
  end.

Definition invoke (c : Call) : Axios.Wire (reply c) -> Async unit :=
  match c with
  | FetchTaskLists => fetchTaskLists
  | GetTaskList id => getTaskList id
  | CreateTaskList title description => createTaskList title description
  | UpdateTaskList id taskList => updateTaskList id taskList
  | DeleteTaskList id => deleteTaskList id
  | FetchTasks taskListId => fetchTasks taskListId
  | CreateTask taskListId draft => createTask taskListId draft
  | GetTask taskListId taskId => getTask taskListId taskId
  | UpdateTask taskListId taskId task => updateTask taskListId taskId task
  | DeleteTask taskListId taskId => deleteTask taskListId taskId
  end.

End Client.

End api.

(** ** The task-list screen *)

Module TaskListScreen.

(** [listId] comes from [useParams]: [undefined] or a string; the
    screen tests it for truthiness, and the empty string is falsy. *)
Definition truthy (listId : option string) : bool :=
  match listId with
  | Some l => negb (bool_decide (l = ""))
  | None => false
  end.

Definition closeTaskCount (ts : list Task.t) : nat :=
  length (filter (fun task => Task.status task = CLOSED) ts).

(** [useMemo] runs the computation while rendering: a [TypeError] in
    it ([None]) is thrown by the render. The guard [state.tasks[listId]]
    lets an inherited value through, and [filter] is then not a
    function. *)
Definition completionPercentage (state : AppState) (listId : option string) : option Q :=
  match listId with
  | Some l =>
      if truthy listId then
        match read (tasks state) l with
        | Own ts =>
            Some (if (0 <? length ts)%nat
                  then Number.mul
                         (Number.div (Number.of_nat (closeTaskCount ts))
                                     (Number.of_nat (length ts)))
                         100
                  else 0%Q)
        | Inherited => None
        | Undefined => Some 0%Q
        end
      else Some 0%Q
  | None => Some 0%Q
  end.

Section Handlers.

Variable API_BASE_URL : string.

(** [updateTask(...).then(() => fetchTasks(...)).catch(console.error)]:
    the second request is made only after the first command has been
    dispatched; whatever fails is logged and swallowed. *)
Definition toggleStatus (listId : option string) (task : Task.t)
    (put : Axios.Wire Task.t) (get : Axios.Wire (list Task.t)) : Async unit :=
  match listId with
  | Some l =>
      if truthy listId then
        let updatedTask :=
          Task.with_status task
            (if bool_decide (Task.status task = CLOSED) then OPEN else CLOSED) in
        attempt
          (await _ := api.updateTask API_BASE_URL l (Task.id task) updatedTask put in
           api.fetchTasks API_BASE_URL l get)
        catch error =>
          emit (ConsoleError [LText "Error updating task:"; LError error])
      else emit (ConsoleError [LText "listId is undefined"])
  | None => emit (ConsoleError [LText "listId is undefined"])
  end.

(** [state.taskLists.find((tl) => listId === tl.id)]: the list the
    screen is about, if the store knows it. *)
Definition taskList (state : AppState) (listId : option string) : option TaskList.t :=
  find (fun tl => bool_decide (listId = Some (TaskList.id tl))) (taskLists state).

(** [taskList ? taskList.title : "Unknown Task List"] *)
Definition heading (state : AppState) (listId : option string) : string :=
  match taskList state listId with
  | Some tl => TaskList.title tl
  | None => "Unknown Task List"
  end.

(** What a handler of the screen does besides using the client: it sets
    the [isLoading] flag and navigates. *)
Inductive UiEvent :=
| Client (ev : Event)
| SetIsLoading (isLoading : bool)
| Navigate (to : string).

Definition Screen (A : Type) : Type := list UiEvent * (Axios.Error + A).

Definition client {A : Type} (m : Async A) : Screen A := (map Client (fst m), snd m).

Definition ui (ev : UiEvent) : Screen unit := ([ev], inr tt).

Definition skip : Screen unit := ([], inr tt).

Definition then_ {A B : Type} (m : Screen A) (k : A -> Screen B) : Screen B :=
  match m with
  | (tr, inl error) => (tr, inl error)
  | (tr, inr a) => let (tr', r) := k a in (tr ++ tr', r)
  end.

Definition catch_ {A : Type} (m : Screen A) (handler : Axios.Error -> Screen A) : Screen A :=
  match m with
  | (tr, inl error) => let (tr', r) := handler error in (tr ++ tr', r)
  | (tr, inr a) => (tr, inr a)
  end.

(** [try { m } finally { f }]: [f] runs however [m] ended; the block
    ends as [m] did unless [f] itself throws. *)
Definition finally_ {A : Type} (m : Screen A) (f : Screen unit) : Screen A :=
  match m, f with
  | (tr, r), (tr', inr _) => (tr ++ tr', r)
  | (tr, _), (tr', inl error) => (tr ++ tr', inl error)
  end.

(** The client events of a screen trace, in order. *)
Fixpoint client_events (tr : list UiEvent) : list Event :=
  match tr with
  | [] => []
  | Client ev :: rest => ev :: client_events rest
  | _ :: rest => client_events rest
  end.

(** The effect that loads the screen's data; [state] is the store the
    render that scheduled the effect saw. *)
Definition loadInitialData (state : AppState) (listId : option string)
    (wlist : Axios.Wire TaskList.t) (wtasks : Axios.Wire (list Task.t)) : Screen unit :=
  match listId with
  | Some l =>
      if truthy listId then
        then_ (ui (SetIsLoading true)) (fun _ =>
        finally_
          (catch_
             (then_ (match taskList state listId with
                     | Some _ => skip
                     | None => client (api.getTaskList API_BASE_URL l wlist)
                     end) (fun _ =>
              catch_ (client (api.fetchTasks API_BASE_URL l wtasks))
                     (fun _ => client (emit (ConsoleLog [LText "Tasks not available yet"])))))
             (fun error =>
                client (emit (ConsoleError [LText "Error loading task list:"; LError error]))))
          (ui (SetIsLoading false)))
      else
        then_ (client (emit (ConsoleError [LText "listId is undefined"])))
              (fun _ => ui (SetIsLoading false))
  | None =>
      then_ (client (emit (ConsoleError [LText "listId is undefined"])))
            (fun _ => ui (SetIsLoading false))
  end.

(** The screen's own [deleteTaskList]: delete, then go home. *)
Definition deleteTaskList (listId : option string) (w : Axios.Wire unit) : Screen unit :=
  match listId with
  | Some l =>
      if truthy listId then
        catch_
          (then_ (client (api.deleteTaskList API_BASE_URL l w))
                 (fun _ => ui (Navigate "/")))
          (fun error =>
             client (emit (ConsoleError [LText "Error deleting task list:"; LError error])))
      else client (emit (ConsoleError [LText "listId is undefined"]))
  | None => client (emit (ConsoleError [LText "listId is undefined"]))
  end.

(** The [onClick] of a row's delete button:
    [api.deleteTask(listId, task.id).catch(console.error)]. *)
Definition onClick_deleteTask (listId : option string) (task : Task.t)
    (w : Axios.Wire unit) : Async unit :=
  match listId with
  | Some l =>
      if truthy listId then
        attempt (api.deleteTask API_BASE_URL l (Task.id task) w)
        catch error => emit (ConsoleError [LText "Error deleting task:"; LError error])
      else emit (ConsoleError [LText "listId is undefined"])
  | None => emit (ConsoleError [LText "listId is undefined"])
  end.

End Handlers.

End TaskListScreen.

(** ** Vocabulary of the properties *)

Definition ids (ts : list Task.t) : list string := map Task.id ts.

(** The slice the store owns under [k], the empty sequence when it owns
    none. *)
Definition slice_or_empty (m : gmap string (list Task.t)) (k : string) : list Task.t :=
  default [] (m !! k).

(** The four slice commands, addressed to list [l]. *)
Definition slice_command (l : string) (a : Action) : bool :=
  match a with
  | FETCH_TASKS l' _ | CREATE_TASK l' _ | GET_TASK l' _ | DELETE_TASK l' _ =>
      bool_decide (l' = l)
  | _ => false
  end.

(** What the last command that referenced id [i] says about it; [acc] is
    what was known before command [a]. A fetch speaks for every id. *)
Definition reference (i : string) (acc : option Task.t) (a : Action) : option Task.t :=
  match a with
  | FETCH_TASKS _ ts => find (task_is i) ts
  | CREATE_TASK _ task | GET_TASK _ task => if task_is i task then Some task else acc
  | DELETE_TASK _ taskId => if bool_decide (taskId = i) then None else acc
  | _ => acc
  end.

Definition last_referenced (i : string) (start : list Task.t) (cmds : list Action)
    : option Task.t :=
  fold_left (reference i) cmds (find (task_is i) start).

(** The slice holds one entry per id, the one last referenced. *)
Definition one_entry_per_id (start : list Task.t) (cmds : list Action)
    (slice : list Task.t) : Prop :=
  NoDup (ids slice) ∧
  ∀ task, task ∈ slice ↔ last_referenced (Task.id task) start cmds = Some task.

(** The property as the specification words it: any start, any sequence
    of slice commands on [l]. *)
Definition unique_last_wins (state : AppState) (l : string) (cmds : list Action) : Prop :=
  forallb (slice_command l) cmds = true →
  ∀ state', run state cmds = Some state' →
    one_entry_per_id (slice_or_empty (tasks state) l) cmds
                     (slice_or_empty (tasks state') l).

(** The percentage in the specification's words: the count of CLOSED
    tasks divided by the count of tasks, times 100, in exact
    arithmetic. *)
Definition exact_percentage (ts : list Task.t) : Q :=
  (inject_Z (Z.of_nat (length (filter (fun t => Task.status t = CLOSED) ts)))
   / inject_Z (Z.of_nat (length ts)) * 100)%Q.

(** The ids a command brings are the server's: a fetched list has no id
    twice, a created task has an id the slice [cur] does not hold yet. *)
Definition server_ids (cur : list Task.t) (a : Action) : bool :=
  match a with
  | FETCH_TASKS _ ts => bool_decide (NoDup (ids ts))
  | CREATE_TASK _ task => bool_decide (Task.id task ∉ ids cur)
  | _ => true
  end.

(** A sequence of slice commands on [l] whose ids are the server's and
    in which DELETE_TASK comes only once the slice exists. [present]
    tells whether the slice exists before the sequence and [cur] lists
    the ids it then holds; both are followed through the commands. *)
Fixpoint admissible (l : string) (present : bool) (cur : list string)
    (cmds : list Action) : bool :=
  match cmds with
  | [] => true
  | a :: rest =>
      slice_command l a
      && match a with
         | FETCH_TASKS _ ts =>
             bool_decide (NoDup (ids ts)) && admissible l true (ids ts) rest
         | CREATE_TASK _ task =>
             bool_decide (Task.id task ∉ cur)
             && admissible l true (cur ++ [Task.id task]) rest
         | GET_TASK _ task =>
             admissible l true
               (if bool_decide (Task.id task ∈ cur) then cur else cur ++ [Task.id task])
               rest
         | DELETE_TASK _ taskId =>
             present && admissible l true (filter (fun i => i ≠ taskId) cur) rest
         | _ => false
         end
  end.

(** The diagnostic context a [console.error] line carries: message,
    status code and response body. *)
Definition logged_context (ev : Event) : option (string * option Z * option string) :=
  match ev with
  | ConsoleError [LText _; LContext m s d] => Some (m, s, d)
  | ConsoleError [LText _; LContextHeaders m s d _] => Some (m, s, d)
  | _ => None
  end.

(** The five commands on [taskLists], and what each makes of the list. *)
Definition list_command (a : Action) : bool :=
  match a with
  | FETCH_TASKLISTS _ | GET_TASKLIST _ | CREATE_TASKLIST _ | UPDATE_TASKLIST _
  | DELETE_TASKLIST _ => true
  | _ => false
  end.

Definition lists_update (a : Action) (l : list TaskList.t) : list TaskList.t :=
  match a with
  | FETCH_TASKLISTS payload => payload
  | GET_TASKLIST payload =>
      if existsb (tl_is (TaskList.id payload)) l then replace_tl payload l
      else l ++ [payload]
  | CREATE_TASKLIST payload => l ++ [payload]
  | UPDATE_TASKLIST payload => replace_tl payload l
  | DELETE_TASKLIST payload => filter (fun wl => TaskList.id wl ≠ payload) l
  | _ => l
  end.

(** The list id a task command addresses. *)
Definition task_list_of (a : Action) : option string :=
  match a with
  | FETCH_TASKS l _ | CREATE_TASK l _ | GET_TASK l _ | UPDATE_TASK l _ _
  | DELETE_TASK l _ => Some l
  | _ => None
  end.

(** What a task command makes of the slice it addresses; [cur] is what
    reading that slice gives, and [None] as result is the fault. *)
Definition slice_update (a : Action) (cur : Slot) : option (list Task.t) :=
  match a with
  | FETCH_TASKS _ ts => Some ts
  | CREATE_TASK _ task => (fun existing => existing ++ [task]) <$> array_or_empty cur
  | GET_TASK _ task =>
      (fun existing =>
         if existsb (task_is (Task.id task)) existing
         then replace_task (Task.id task) task existing
         else existing ++ [task]) <$> array_or_empty cur
  | UPDATE_TASK _ taskId task => replace_task taskId task <$> array cur
  | DELETE_TASK _ taskId => filter (fun t => Task.id t ≠ taskId) <$> array cur
  | _ => None
  end.

(** The two commands that append. *)
Definition appends (a : Action) : bool :=
  match a with
  | CREATE_TASKLIST _ | CREATE_TASK _ _ => true
  | _ => false
  end.

Definition list_ids (l : list TaskList.t) : list string := map TaskList.id l.

(** The command an operation of the client builds from the body of a
    successful response. *)
Definition command_of (c : api.Call) : api.reply c → Action :=
  match c with
  | api.FetchTaskLists => FETCH_TASKLISTS
  | api.GetTaskList _ => GET_TASKLIST
  | api.CreateTaskList _ _ => CREATE_TASKLIST
  | api.UpdateTaskList _ _ => UPDATE_TASKLIST
  | api.DeleteTaskList id => fun _ => DELETE_TASKLIST id
  | api.FetchTasks l => FETCH_TASKS l
  | api.CreateTask l _ => CREATE_TASK l
  | api.GetTask l _ => GET_TASK l
  | api.UpdateTask l taskId _ => UPDATE_TASK l taskId
  | api.DeleteTask l taskId => fun _ => DELETE_TASK l taskId
  end.

(** The HTTP requests of a trace, in order. *)
Fixpoint requests (tr : list Event) : list (Method * string * Body) :=
  match tr with
  | [] => []
  | Request m url body :: rest => (m, url, body) :: requests rest
  | _ :: rest => requests rest
  end.

(** The [console.error] lines of a trace. *)
Fixpoint errors_logged (tr : list Event) : nat :=
  match tr with
  | [] => 0
  | ConsoleError _ :: rest => S (errors_logged rest)
  | _ :: rest => errors_logged rest
  end.

(** ** Sample data: the entities of the specification's scenarios *)

Definition L1 : TaskList.t :=
  {| TaskList.id := "L1"; TaskList.title := "Home"; TaskList.description := None |}.

Definition L2 : TaskList.t :=
  {| TaskList.id := "L2"; TaskList.title := "Work"; TaskList.description := None |}.

Definition T1 : Task.t :=
  {| Task.id := "T1"; Task.taskListId := "L1"; Task.title := "Water the plants";
     Task.priority := MEDIUM; Task.dueDate := None; Task.status := OPEN |}.

Definition T2 : Task.t :=
  {| Task.id := "T2"; Task.taskListId := "L1"; Task.title := "Pay the rent";
     Task.priority := HIGH; Task.dueDate := Some "2025-01-31"; Task.status := CLOSED |}.

(** A second task the server might return under the id of [T1]. *)
Definition T1' : Task.t :=
  {| Task.id := "T1"; Task.taskListId := "L1"; Task.title := "Water the garden";
     Task.priority := LOW; Task.dueDate := None; Task.status := OPEN |}.

(** [T1] as the server stores it once it has been closed. *)
Definition T1_closed : Task.t := Task.with_status T1 CLOSED.

Definition scenario_state : AppState := {| taskLists := [L1]; tasks := ∅ |}.

(** The screen of [L1] once its only task [T1] has been fetched. *)
Definition one_task_state : AppState :=
  {| taskLists := [L1]; tasks := {[ "L1" := [T1] ]} |}.

(** Twenty tasks of which eleven are CLOSED. *)
Definition eleven_of_twenty : list Task.t := repeat T2 11 ++ repeat T1 9.

Definition progress_state : AppState :=
  {| taskLists := [L1]; tasks := {[ "L1" := eleven_of_twenty ]} |}.

Definition ok (body : option string) : Axios.Response :=
  {| Axios.status := 200; Axios.data := body; Axios.headers := [] |}.

Definition server_error : Axios.Response :=
  {| Axios.status := 500; Axios.data := Some "Internal Server Error";
     Axios.headers := [] |}.

Definition base_url : string := "https://tasks-backend-wium.onrender.com".

(** ** Reading the store *)

Lemma read_own (m : gmap string (list Task.t)) (k : string) (ts : list Task.t) :
  m !! k = Some ts → read m k = Own ts.
Proof. intros H. unfold read. rewrite H. reflexivity. Qed.

Lemma read_absent (m : gmap string (list Task.t)) (k : string) :
  m !! k = None → array (read m k) = None.
Proof.
  intros H. unfold read. rewrite H.
  destruct (bool_decide (k ∈ Object_prototype)); reflexivity.
Qed.

Lemma array_read (m : gmap string (list Task.t)) (k : string) :
  array (read m k) = m !! k.
Proof.
  unfold read. destruct (m !! k); [reflexivity|].
  destruct (bool_decide (k ∈ Object_prototype)); reflexivity.
Qed.

Lemma read_plain (m : gmap string (list Task.t)) (k : string) :
  m !! k = None → k ∉ Object_prototype → read m k = Undefined.
Proof.
  intros H Hk. unfold read. rewrite H, bool_decide_eq_false_2 by exact Hk. reflexivity.
Qed.

Lemma read_inherited (m : gmap string (list Task.t)) (k : string) :
  read m k = Inherited ↔ m !! k = None ∧ k ∈ Object_prototype.
Proof.
  unfold read. destruct (m !! k) as [ts|].
  - split; [discriminate|]. intros [H _]. discriminate H.
  - destruct (bool_decide (k ∈ Object_prototype)) eqn:Hk.
    + apply bool_decide_eq_true in Hk. tauto.
    + apply bool_decide_eq_false in Hk. split; [discriminate|]. tauto.
Qed.

Lemma read_insert (m : gmap string (list Task.t)) (k : string) (ts : list Task.t) :
  read (<[k := ts]> m) k = Own ts.
Proof. apply read_own, lookup_insert_eq. Qed.

Lemma read_insert_ne (m : gmap string (list Task.t)) (k k' : string) (ts : list Task.t) :
  k' ≠ k → read (<[k' := ts]> m) k = read m k.
Proof. intros H. unfold read. rewrite lookup_insert_ne by exact H. reflexivity. Qed.

Lemma array_or_empty_slice (m : gmap string (list Task.t)) (k : string) :
  read m k ≠ Inherited → array_or_empty (read m k) = Some (slice_or_empty m k).
Proof.
  unfold read, slice_or_empty. destruct (m !! k) as [ts|]; [reflexivity|].
  destruct (bool_decide (k ∈ Object_prototype)); [congruence|reflexivity].
Qed.

(** ** The reducer, case by case *)

Lemma reducer_tasks_lookup (state state' : AppState) (a : Action) (l : string) :
  reducer state a = Some state' →
  tasks state' !! l = tasks state !! l
  ∨ ∃ ts, tasks state' !! l = Some ts.
Proof.
  intros H. destruct a; simpl in H;
    repeat match type of H with
           | match ?x with _ => _ end = _ => destruct x eqn:?; [|discriminate]
           end;
    injection H as <-; simpl; auto;
    match goal with
    | |- context [<[?k := ?v]> _ !! l] =>
        destruct (decide (k = l)) as [->|Hne];
        [right; eexists; apply lookup_insert_eq
        |left; apply lookup_insert_ne; exact Hne]
    end.
Qed.

(** *** C3 *)

(** C3: UPDATE_TASK (ReplaceTaskField) and DELETE_TASK (RemoveTask) on
    a list id whose slice is absent fault, and no state, so no new
    slice, results; once FETCH_TASKS (ReplaceTasks) has established the
    slice for that id, the same two commands go through. *)
Theorem absent_slice_faults (state : AppState) (l taskId : string) (task : Task.t)
    (fetched : list Task.t) :
  tasks state !! l = None →
  reducer state (UPDATE_TASK l taskId task) = None
  ∧ reducer state (DELETE_TASK l taskId) = None
  ∧ ∃ state1, reducer state (FETCH_TASKS l fetched) = Some state1
      ∧ tasks state1 !! l = Some fetched
      ∧ (∃ state2, reducer state1 (UPDATE_TASK l taskId task) = Some state2
           ∧ tasks state2 !! l = Some (replace_task taskId task fetched))
      ∧ (∃ state2, reducer state1 (DELETE_TASK l taskId) = Some state2
           ∧ tasks state2 !! l
             = Some (filter (fun t => Task.id t ≠ taskId) fetched)).
Proof.
  intros Habsent. simpl. rewrite (read_absent _ _ Habsent).
  split; [reflexivity|]. split; [reflexivity|].
  eexists. split; [reflexivity|]. simpl.
  rewrite lookup_insert_eq, read_insert. simpl.
  split; [reflexivity|].
  split; eexists; (split; [reflexivity|]); simpl; apply lookup_insert_eq.
Qed.

Lemma absent_slice_faults_witness :
  tasks scenario_state !! "L1" = None
  ∧ reducer scenario_state (UPDATE_TASK "L1" "T1" T1') = None
  ∧ reducer scenario_state (DELETE_TASK "L1" "T1") = None.
Proof.
  assert (H : tasks scenario_state !! "L1" = None) by reflexivity.
  split; [exact H|].
  pose proof (absent_slice_faults scenario_state "L1" "T1" T1' [T1; T2] H) as (Hu & Hd & _).
  split; assumption.
Defined.

(** *** C6 *)

(** C6: DELETE_TASKLIST (RemoveTaskList) never faults and leaves the
    whole [tasks] mapping as it was: a slice cached for the deleted list
    is still there afterwards. *)
Theorem delete_tasklist_keeps_tasks (state : AppState) (id : string) :
  ∃ state', reducer state (DELETE_TASKLIST id) = Some state'
    ∧ tasks state' = tasks state
    ∧ ∀ ts, tasks state !! id = Some ts → tasks state' !! id = Some ts.
Proof.
  eexists. split; [reflexivity|]. simpl. split; [reflexivity|]. auto.
Qed.

(** *** C7 *)

Lemma filter_keeps_clean_sublists {A : Type} (P : A → Prop) `{∀ x, Decision (P x)}
    (k l : list A) :
  k `sublist_of` l → Forall P k → k `sublist_of` filter P l.
Proof.
  induction 1 as [|x k l Hsub IH|x k l Hsub IH]; intros Hall.
  - constructor.
  - apply Forall_cons in Hall as [Hx Hall].
    rewrite filter_cons_True by exact Hx. apply sublist_skip, IH, Hall.
  - rewrite filter_cons. destruct (decide (P x)).
    + apply sublist_cons, IH, Hall.
    + apply IH, Hall.
Qed.

(** C7: DELETE_TASKLIST (RemoveTaskList) removes from [taskLists] the
    entries whose id matches and nothing else: what is left is a
    subsequence of the old list (entries unchanged, relative order
    kept), holds no matching entry, and every subsequence of the old
    list without a matching entry is still a subsequence of it. *)
Theorem delete_tasklist_exact (state : AppState) (id : string) :
  ∃ state', reducer state (DELETE_TASKLIST id) = Some state'
    ∧ taskLists state' `sublist_of` taskLists state
    ∧ (∀ wl, wl ∈ taskLists state' ↔ wl ∈ taskLists state ∧ TaskList.id wl ≠ id)
    ∧ (∀ kept, kept `sublist_of` taskLists state →
         Forall (fun wl => TaskList.id wl ≠ id) kept →
         kept `sublist_of` taskLists state').
Proof.
  eexists. split; [reflexivity|]. simpl.
  split; [apply sublist_filter|].
  split.
  - intros wl. rewrite list_elem_of_filter. tauto.
  - intros kept Hsub Hall. apply filter_keeps_clean_sublists; assumption.
Qed.

(** *** C8 *)

(** C8: FETCH_TASKLISTS (ReplaceTaskLists) is idempotent: applying it a
    second time with the same payload gives the state the first
    application gave. *)
Theorem fetch_tasklists_idempotent (state : AppState) (X : list TaskList.t) :
  ∃ state1, reducer state (FETCH_TASKLISTS X) = Some state1
    ∧ reducer state1 (FETCH_TASKLISTS X) = Some state1
    ∧ run state [FETCH_TASKLISTS X; FETCH_TASKLISTS X] = run state [FETCH_TASKLISTS X].
Proof.
  eexists. split; [reflexivity|]. split; reflexivity.
Qed.

Lemma delete_tasklist_exact_witness :
  ∃ state', reducer {| taskLists := [L1; L2; L1]; tasks := ∅ |} (DELETE_TASKLIST "L1")
            = Some state'
    ∧ taskLists state' = [L2].
Proof.
  destruct (delete_tasklist_exact {| taskLists := [L1; L2; L1]; tasks := ∅ |} "L1")
    as (state' & Hred & _).
  exists state'. split; [exact Hred|].
  simpl in Hred. injection Hred as <-. reflexivity.
Defined.

(** *** C9 *)

Lemma replace_tl_unknown (p : TaskList.t) (l : list TaskList.t) :
  (∀ wl, wl ∈ l → TaskList.id wl ≠ TaskList.id p) → replace_tl p l = l.
Proof.
  unfold replace_tl. induction l as [|wl l IH]; intros Hnone; [reflexivity|].
  simpl. unfold tl_is at 1.
  rewrite bool_decide_eq_false_2 by (apply Hnone; left).
  f_equal. apply IH. intros wl' Hin. apply Hnone. right. exact Hin.
Qed.

(** C9: UPDATE_TASKLIST (ReplaceTaskListField) with a payload whose id
    matches no entry of [taskLists] returns the state it was given: no
    fault, and the payload is not appended. The task-level UPDATE_TASK
    (ReplaceTaskField) differs: it faults when its precondition, an
    existing slice, does not hold. *)
Theorem update_tasklist_unknown_id (state : AppState) (payload : TaskList.t) :
  (∀ wl, wl ∈ taskLists state → TaskList.id wl ≠ TaskList.id payload) →
  reducer state (UPDATE_TASKLIST payload) = Some state
  ∧ (payload ∉ taskLists state)
  ∧ ∀ l taskId task, tasks state !! l = None →
      reducer state (UPDATE_TASK l taskId task) = None.
Proof.
  intros Hnone. split; [|split].
  - destruct state as [tls ts]. simpl in *.
    rewrite replace_tl_unknown by exact Hnone. reflexivity.
  - intros Hin. exact (Hnone payload Hin eq_refl).
  - intros l taskId task Habsent. simpl. rewrite array_read, Habsent. reflexivity.
Qed.

Lemma update_tasklist_unknown_id_witness :
  reducer scenario_state (UPDATE_TASKLIST L2) = Some scenario_state
  ∧ reducer scenario_state (UPDATE_TASK "L2" "T1" T1) = None.
Proof.
  assert (H : ∀ wl, wl ∈ taskLists scenario_state → TaskList.id wl ≠ TaskList.id L2).
  { intros wl Hin. apply list_elem_of_singleton in Hin. subst wl. discriminate. }
  destruct (update_tasklist_unknown_id scenario_state L2 H) as (Hsame & _ & Hfault).
  split; [exact Hsame|]. apply Hfault. reflexivity.
Defined.

(** *** C10 *)

(** C10: a command that applies without fault deletes no key of
    [tasks]: every list id that was a key before is a key afterwards.
    DELETE_TASK (RemoveTask) in particular keeps its key and stores
    under it the old sequence without the matching entries, which may
    be empty. *)
Theorem tasks_keys_never_deleted (state state' : AppState) (a : Action) :
  reducer state a = Some state' →
  (∀ l, is_Some (tasks state !! l) → is_Some (tasks state' !! l))
  ∧ dom (tasks state) ⊆ dom (tasks state')
  ∧ ∀ l taskId, a = DELETE_TASK l taskId →
      ∃ old, tasks state !! l = Some old
        ∧ tasks state' !! l = Some (filter (fun t => Task.id t ≠ taskId) old).
Proof.
  intros Hred.
  assert (Hkeys : ∀ l, is_Some (tasks state !! l) → is_Some (tasks state' !! l)).
  { intros l Hsome.
    destruct (reducer_tasks_lookup state state' a l Hred) as [Heq|[ts Hts]].
    - rewrite Heq. exact Hsome.
    - rewrite Hts. eauto. }
  split; [exact Hkeys|]. split.
  - intros l. rewrite !elem_of_dom. apply Hkeys.
  - intros l taskId ->. simpl in Hred. rewrite array_read in Hred.
    destruct (tasks state !! l) as [old|] eqn:Hold; [|discriminate].
    injection Hred as <-. exists old. split; [reflexivity|].
    simpl. apply lookup_insert_eq.
Qed.

Lemma tasks_keys_never_deleted_witness :
  ∃ state', reducer one_task_state (DELETE_TASK "L1" "T1") = Some state'
    ∧ tasks state' !! "L1" = Some [].
Proof.
  destruct (reducer one_task_state (DELETE_TASK "L1" "T1")) as [state'|] eqn:Hred;
    [|discriminate Hred].
  exists state'. split; [reflexivity|].
  destruct (tasks_keys_never_deleted _ _ _ Hred) as (_ & _ & Hdel).
  destruct (Hdel "L1" "T1" eq_refl) as (old & Hold & Hnew).
  rewrite Hnew. f_equal.
  assert (Hold' : tasks one_task_state !! "L1" = Some [T1]) by reflexivity.
  rewrite Hold' in Hold. injection Hold as <-. reflexivity.
Defined.

(** ** The Remote Store Client *)

Lemma failed_rejects {A : Type} (w : Axios.Wire A) :
  Axios.failed w = true → ∃ error, Axios.settle w = Axios.Rejected error.
Proof.
  destruct w as [reason|r parsed]; simpl.
  - eauto.
  - destruct (Axios.validateStatus (Axios.status r)); [discriminate|eauto].
Qed.

Lemma fulfilled_not_failed {A : Type} (w : Axios.Wire A) (data : A) :
  Axios.settle w = Axios.Fulfilled data → Axios.failed w = false.
Proof.
  destruct w as [reason|r parsed]; simpl; [discriminate|].
  destruct (Axios.validateStatus (Axios.status r)); [reflexivity|discriminate].
Qed.

(** *** C1 *)

(** C1: whichever of the ten client operations is called, if its HTTP
    call fails (transport error, or a status outside 2xx), then the
    operation dispatches no command, so the store is exactly the state
    it was before the call, tasks[listId] included; the last thing it
    does is log the diagnostic context (message, status code, response
    body when present), and it completes by throwing the very error the
    request was rejected with. *)
Theorem failed_call_dispatches_nothing (API_BASE_URL : string) (c : api.Call)
    (w : Axios.Wire (api.reply c)) (state : AppState) :
  Axios.failed w = true →
  ∃ error,
    Axios.settle w = Axios.Rejected error
    ∧ completion (api.invoke API_BASE_URL c w) = inl error
    ∧ dispatched (trace (api.invoke API_BASE_URL c w)) = []
    ∧ after state (trace (api.invoke API_BASE_URL c w)) = Some state
    ∧ ∃ before line,
        trace (api.invoke API_BASE_URL c w) = before ++ [line]
        ∧ logged_context line
          = Some (Axios.message error,
                  Axios.status <$> Axios.response error,
                  Axios.response error ≫= Axios.data).
Proof.
  intros Hfailed.
  destruct (failed_rejects w Hfailed) as [error Hrej].
  exists error. split; [exact Hrej|].
  destruct c; simpl in *;
    unfold api.fetchTaskLists, api.getTaskList, api.createTaskList, api.getTask,
      api.updateTaskList, api.deleteTaskList, api.fetchTasks, api.createTask,
      api.updateTask, api.deleteTask, await_axios, after, completion, trace;
    simpl; rewrite Hrej; simpl;
    (split; [reflexivity|]); (split; [reflexivity|]); (split; [reflexivity|]);
    match goal with
    | |- ∃ before line, [?a; ?b; ?c] = _ ∧ _ => exists [a; b], c
    | |- ∃ before line, [?a; ?b] = _ ∧ _ => exists [a], b
    end; split; reflexivity.
Qed.

Lemma failed_call_dispatches_nothing_witness :
  completion (api.deleteTask base_url "L1" "T1" (Axios.Answered server_error tt))
  = inl {| Axios.message := "Request failed with status code 500";
           Axios.response := Some server_error |}
  ∧ after one_task_state
      (trace (api.deleteTask base_url "L1" "T1" (Axios.Answered server_error tt)))
    = Some one_task_state.
Proof.
  destruct (failed_call_dispatches_nothing base_url (api.DeleteTask "L1" "T1")
              (Axios.Answered server_error tt) one_task_state eq_refl)
    as (error & Hrej & Hthrown & _ & Hstate & _).
  split; [|exact Hstate].
  vm_compute in Hrej. injection Hrej as <-. exact Hthrown.
Defined.


(** ** Rounding to binary64 *)

Section Rounding.

Local Open Scope Q_scope.

Lemma pow2_pos (k : Z) : 0 < 2 ^ k.
Proof. apply Qpower_0_lt. reflexivity. Qed.

Lemma pow2_add (a b : Z) : 2 ^ (a + b) == 2 ^ a * 2 ^ b.
Proof. apply Qpower_plus. discriminate. Qed.

Lemma pow2_le (a b : Z) : (a <= b)%Z -> 2 ^ a <= 2 ^ b.
Proof. intros H. apply Qpower_le_compat_l; [exact H|discriminate]. Qed.

Lemma pow2_lt_inv (a b : Z) : 2 ^ a < 2 ^ b -> (a < b)%Z.
Proof. intros H. apply (Qpower_lt_compat_l_inv 2); [exact H|reflexivity]. Qed.

Lemma pow2_Z (k : Z) : (0 <= k)%Z -> inject_Z (2 ^ k) == 2 ^ k.
Proof. intros H. rewrite Zpower_Qpower by exact H. reflexivity. Qed.

Lemma log2_bounds (a : Z) :
  (0 < a)%Z -> 2 ^ Z.log2 a <= inject_Z a /\ inject_Z a < 2 ^ (Z.log2 a + 1).
Proof.
  intros Ha. destruct (Z.log2_spec a Ha) as [Hlo Hhi].
  pose proof (Z.log2_nonneg a) as Hnn.
  rewrite <- !pow2_Z by lia. rewrite <- Zle_Qle, <- Zlt_Qlt.
  split; [exact Hlo|]. replace (Z.log2 a + 1)%Z with (Z.succ (Z.log2 a)) by lia. exact Hhi.
Qed.

Lemma floor_log2_spec (q : Q) :
  0 < q -> 2 ^ Number.floor_log2 q <= q /\ q < 2 ^ (Number.floor_log2 q + 1).
Proof.
  intros Hq. unfold Number.floor_log2.
  set (a := Qnum q). set (b := Zpos (Qden q)).
  assert (Ha : (0 < a)%Z).
  { unfold Qlt in Hq. simpl in Hq. unfold a. lia. }
  assert (Hb : (0 < b)%Z) by (unfold b; lia).
  destruct (log2_bounds a Ha) as [Ha1 Ha2].
  destruct (log2_bounds b Hb) as [Hb1 Hb2].
  assert (Hqab : q == inject_Z a / inject_Z b).
  { unfold a, b. destruct q as [n d]. simpl. apply Qmake_Qdiv. }
  assert (HB : 0 < inject_Z b) by (rewrite <- (Zlt_Qlt 0); exact Hb).
  set (la := Z.log2 a) in *. set (lb := Z.log2 b) in *.
  pose proof (pow2_pos lb) as Hplb. pose proof (pow2_pos (lb + 1)) as Hplb1.
  assert (Hup : q < 2 ^ (la - lb + 1)).
  { rewrite Hqab. apply Qlt_shift_div_r; [exact HB|].
    apply Qlt_le_trans with (2 ^ (la + 1)); [exact Ha2|].
    replace (la + 1)%Z with ((la - lb + 1) + lb)%Z by lia.
    rewrite pow2_add. apply Qmult_le_l; [apply pow2_pos|exact Hb1]. }
  assert (Hlow : 2 ^ (la - lb - 1) <= q).
  { rewrite Hqab. apply Qle_shift_div_l; [exact HB|].
    apply Qle_trans with (2 ^ la); [|exact Ha1].
    replace la with ((la - lb - 1) + (lb + 1))%Z at 2 by lia.
    rewrite pow2_add. apply Qmult_le_l; [apply pow2_pos|]. apply Qlt_le_weak, Hb2. }
  destruct (Qle_bool (2 ^ (la - lb)) q) eqn:Htest.
  - apply Qle_bool_iff in Htest. split; [exact Htest|exact Hup].
  - split; [exact Hlow|].
    replace (la - lb - 1 + 1)%Z with (la - lb)%Z by lia.
    apply Qnot_le_lt. intros Hle. apply Qle_bool_iff in Hle. congruence.
Qed.

Lemma floor_log2_mono (x y : Q) : 0 < x -> x <= y -> (Number.floor_log2 x <= Number.floor_log2 y)%Z.
Proof.
  intros Hx Hxy.
  destruct (floor_log2_spec x Hx) as [Hx1 _].
  destruct (floor_log2_spec y (Qlt_le_trans _ _ _ Hx Hxy)) as [_ Hy2].
  assert (H : 2 ^ Number.floor_log2 x < 2 ^ (Number.floor_log2 y + 1)).
  { eapply Qle_lt_trans; [exact Hx1|]. eapply Qle_lt_trans; [exact Hxy|exact Hy2]. }
  apply pow2_lt_inv in H. lia.
Qed.

Lemma nearest_even_floor (q : Q) :
  (Qfloor q <= Number.nearest_even q <= Qfloor q + 1)%Z.
Proof.
  unfold Number.nearest_even.
  destruct (Qcompare (q - inject_Z (Qfloor q)) (1 # 2)); [|lia|lia].
  destruct (Z.even (Qfloor q)); lia.
Qed.

Lemma nearest_even_ge (q : Q) (k : Z) : inject_Z k <= q -> (k <= Number.nearest_even q)%Z.
Proof.
  intros H. apply Qfloor_resp_le in H. rewrite Qfloor_Z in H.
  pose proof (nearest_even_floor q). lia.
Qed.

Lemma nearest_even_le (q : Q) (k : Z) : q <= inject_Z k -> (Number.nearest_even q <= k)%Z.
Proof.
  intros H. pose proof (Qfloor_resp_le _ _ H) as Hf. rewrite Qfloor_Z in Hf.
  pose proof (nearest_even_floor q) as Hn.
  destruct (Z.eq_dec (Qfloor q) k) as [Heq|Hne]; [|lia].
  unfold Number.nearest_even. rewrite Heq.
  assert (Hq : q == inject_Z k).
  { apply Qle_antisym; [exact H|]. rewrite <- Heq. apply Qfloor_le. }
  destruct (Qcompare (q - inject_Z k) (1 # 2)) eqn:Hc; [| lia |].
  - exfalso. apply Qeq_alt in Hc. lra.
  - exfalso. apply Qgt_alt in Hc. lra.
Qed.

Lemma nearest_even_mono (x y : Q) :
  x <= y -> (Number.nearest_even x <= Number.nearest_even y)%Z.
Proof.
  intros Hxy. pose proof (Qfloor_resp_le _ _ Hxy) as Hf.
  pose proof (nearest_even_floor x) as Hx. pose proof (nearest_even_floor y) as Hy.
  destruct (Z.eq_dec (Qfloor x) (Qfloor y)) as [Heq|Hne]; [|lia].
  unfold Number.nearest_even. rewrite <- Heq.
  assert (Hr : x - inject_Z (Qfloor x) <= y - inject_Z (Qfloor x)) by lra.
  destruct (Qcompare (x - inject_Z (Qfloor x)) (1 # 2)) eqn:Hcx;
    destruct (Qcompare (y - inject_Z (Qfloor x)) (1 # 2)) eqn:Hcy;
    try (destruct (Z.even (Qfloor x)); lia); try lia; exfalso;
    first [apply Qeq_alt in Hcx | apply Qlt_alt in Hcx | apply Qgt_alt in Hcx];
    first [apply Qeq_alt in Hcy | apply Qlt_alt in Hcy | apply Qgt_alt in Hcy];
    lra.
Qed.

Lemma round_pos_mono (x y : Q) : 0 < x -> x <= y -> Number.round_pos x <= Number.round_pos y.
Proof.
  intros Hx Hxy. assert (Hy : 0 < y) by (eapply Qlt_le_trans; eassumption).
  pose proof (floor_log2_mono x y Hx Hxy) as Hl.
  destruct (floor_log2_spec x Hx) as [_ Hx2].
  destruct (floor_log2_spec y Hy) as [Hy1 _].
  unfold Number.round_pos, Number.exponent.
  set (lx := Number.floor_log2 x) in *. set (ly := Number.floor_log2 y) in *.
  set (ex := Z.max (lx - 52) (-1074)). set (ey := Z.max (ly - 52) (-1074)).
  pose proof (pow2_pos ex) as Hpx. pose proof (pow2_pos ey) as Hpy.
  destruct (Z.eq_dec ex ey) as [Heq|Hne].
  - rewrite <- Heq. apply Qmult_le_compat_r; [|apply Qlt_le_weak, Hpx].
    rewrite <- Zle_Qle. apply nearest_even_mono.
    apply Qmult_le_compat_r; [exact Hxy|]. apply Qlt_le_weak, Qinv_lt_0_compat, Hpx.
  - assert (Hey : ey = (ly - 52)%Z) by lia.
    assert (Hex : (lx + 1 <= ex + 53)%Z) by lia.
    assert (Hexy : (ex + 53 <= ly)%Z) by lia.
    apply Qle_trans with (2 ^ ly).
    + apply Qle_trans with (2 ^ (ex + 53)); [|apply pow2_le; exact Hexy].
      rewrite Z.add_comm, pow2_add.
      apply Qmult_le_compat_r; [|apply Qlt_le_weak, Hpx].
      rewrite <- (pow2_Z 53) by lia. rewrite <- Zle_Qle. apply nearest_even_le.
      rewrite (pow2_Z 53) by lia. apply Qle_shift_div_r; [exact Hpx|].
      rewrite <- pow2_add. apply Qlt_le_weak. eapply Qlt_le_trans; [exact Hx2|].
      apply pow2_le. lia.
    + replace ly with (52 + ey)%Z at 1 by lia. rewrite pow2_add.
      apply Qmult_le_compat_r; [|apply Qlt_le_weak, Hpy].
      rewrite <- (pow2_Z 52) by lia. rewrite <- Zle_Qle. apply nearest_even_ge.
      rewrite (pow2_Z 52) by lia. apply Qle_shift_div_l; [exact Hpy|].
      rewrite <- pow2_add. eapply Qle_trans; [|exact Hy1]. apply pow2_le. lia.
Qed.

Lemma round_pos_nonneg (x : Q) : 0 <= x -> 0 <= Number.round_pos x.
Proof.
  intros Hx. unfold Number.round_pos.
  apply Qmult_le_0_compat; [|apply Qlt_le_weak, pow2_pos].
  change 0 with (inject_Z 0). rewrite <- Zle_Qle. apply nearest_even_ge.
  apply Qle_shift_div_l; [apply pow2_pos|].
  change (inject_Z 0) with 0. rewrite Qmult_0_l. exact Hx.
Qed.

Lemma round_compat (x y : Q) : x == y -> Number.round x = Number.round y.
Proof. intros H. unfold Number.round. rewrite (Qred_complete x y H). reflexivity. Qed.

Lemma round_mono (x y : Q) : 0 <= x -> x <= y -> Number.round x <= Number.round y.
Proof.
  intros Hx Hxy. unfold Number.round.
  pose proof (Qred_correct x) as Hrx. pose proof (Qred_correct y) as Hry.
  assert (Hx' : 0 <= Qred x) by (rewrite Hrx; exact Hx).
  assert (Hxy' : Qred x <= Qred y) by (rewrite Hrx, Hry; exact Hxy).
  assert (Hy' : 0 <= Qred y) by (eapply Qle_trans; eassumption).
  destruct (Qnum (Qred x)) eqn:Hnx.
  - destruct (Qnum (Qred y)) eqn:Hny.
    + apply Qle_refl.
    + rewrite (Qred_correct (Number.round_pos (Qred y))). apply round_pos_nonneg, Hy'.
    + exfalso. unfold Qle in Hy'. simpl in Hy'. lia.
  - assert (Hpx : 0 < Qred x) by (unfold Qlt; simpl; lia).
    destruct (Qnum (Qred y)) eqn:Hny.
    + exfalso. assert (Qred y == 0) by (unfold Qeq; simpl; lia). lra.
    + rewrite (Qred_correct (Number.round_pos (Qred x))).
      rewrite (Qred_correct (Number.round_pos (Qred y))).
      apply round_pos_mono; assumption.
    + exfalso. unfold Qle in Hy'. simpl in Hy'. lia.
  - exfalso. unfold Qle in Hx'. simpl in Hx'. lia.
Qed.

Lemma nearest_even_close (q : Q) :
  Qabs (inject_Z (Number.nearest_even q) - q) <= 1 # 2.
Proof.
  pose proof (Qfloor_le q) as Hlo. pose proof (Qlt_floor q) as Hhi.
  rewrite inject_Z_plus in Hhi. change (inject_Z 1) with 1 in Hhi.
  apply Qabs_Qle_condition. unfold Number.nearest_even.
  destruct (Qcompare (q - inject_Z (Qfloor q)) (1 # 2)) eqn:Hc.
  - apply Qeq_alt in Hc. destruct (Z.even (Qfloor q));
      rewrite ?inject_Z_plus; change (inject_Z 1) with 1; split; lra.
  - apply Qlt_alt in Hc. split; lra.
  - apply Qgt_alt in Hc. rewrite inject_Z_plus. change (inject_Z 1) with 1. split; lra.
Qed.

Lemma round_pos_error (x : Q) :
  0 < x -> (-1022 <= Number.floor_log2 x)%Z ->
  Qabs (Number.round_pos x - x) <= x * (1 # 9007199254740992).
Proof.
  intros Hx Hl. destruct (floor_log2_spec x Hx) as [Hlo _].
  unfold Number.round_pos, Number.exponent.
  replace (Z.max (Number.floor_log2 x - 52) (-1074)) with (Number.floor_log2 x - 52)%Z by lia.
  set (e := (Number.floor_log2 x - 52)%Z).
  pose proof (pow2_pos e) as He.
  pose proof (nearest_even_close (x / 2 ^ e)) as Hc.
  set (m := inject_Z (Number.nearest_even (x / 2 ^ e))) in *.
  assert (Hx2 : x == x / 2 ^ e * 2 ^ e).
  { unfold Qdiv. rewrite <- Qmult_assoc, (Qmult_comm (/ 2 ^ e)), Qmult_inv_r; [ring|].
    intros H0. rewrite H0 in He. exact (Qlt_irrefl 0 He). }
  assert (Hhalf : (1 # 2) * 2 ^ e <= x * (1 # 9007199254740992)).
  { assert (Hpe : 2 ^ Number.floor_log2 x == 2 ^ e * 2 ^ 52).
    { replace (Number.floor_log2 x) with (e + 52)%Z by (unfold e; lia). apply pow2_add. }
    rewrite Hpe in Hlo. change (2 ^ 52) with (4503599627370496 # 1) in Hlo. lra. }
  apply Qabs_Qle_condition in Hc. destruct Hc as [Hc1 Hc2].
  apply Qabs_Qle_condition.
  assert (H1 : m * 2 ^ e - x == (m - x / 2 ^ e) * 2 ^ e).
  { rewrite Hx2 at 1. ring. }
  rewrite H1.
  assert (Hb1 : (m - x / 2 ^ e) * 2 ^ e <= (1 # 2) * 2 ^ e).
  { apply Qmult_le_compat_r; [exact Hc2|apply Qlt_le_weak, He]. }
  assert (Hb2 : - (1 # 2) * 2 ^ e <= (m - x / 2 ^ e) * 2 ^ e).
  { apply Qmult_le_compat_r; [exact Hc1|apply Qlt_le_weak, He]. }
  split; lra.
Qed.

Lemma round_error (x : Q) :
  2 ^ (-1022) <= x ->
  Qabs (Number.round x - x) <= x * (1 # 9007199254740992).
Proof.
  intros Hx. pose proof (pow2_pos (-1022)) as Hp.
  assert (Hpos : 0 < x) by (eapply Qlt_le_trans; eassumption).
  unfold Number.round. pose proof (Qred_correct x) as Hr.
  assert (Hpos' : 0 < Qred x) by (rewrite Hr; exact Hpos).
  destruct (Qnum (Qred x)) eqn:Hn.
  - exfalso. unfold Qlt in Hpos'. simpl in Hpos'. lia.
  - rewrite (Qred_correct (Number.round_pos (Qred x))).
    assert (Hl : (-1022 <= Number.floor_log2 (Qred x))%Z).
    { destruct (floor_log2_spec _ Hpos') as [_ Hhi].
      assert (H : 2 ^ (-1022) < 2 ^ (Number.floor_log2 (Qred x) + 1)).
      { eapply Qle_lt_trans; [exact Hx|]. rewrite <- Hr at 1. exact Hhi. }
      apply pow2_lt_inv in H. lia. }
    pose proof (round_pos_error (Qred x) Hpos' Hl) as He.
    rewrite Hr in He at 2 3. exact He.
  - exfalso. unfold Qlt in Hpos'. simpl in Hpos'. lia.
Qed.

(** On every slice of up to 64 tasks the model computes the very value
    the primitive floats do. *)
Example round_agrees_with_primitive_floats :
  forallb (fun n =>
             forallb (fun c =>
                        match Number.primitive_percent c (S n) with
                        | Some q =>
                            Qeq_bool q
                              (Number.mul (Number.div (Number.of_nat c)
                                                      (Number.of_nat (S n)))
                                          100)
                        | None => false
                        end)
                     (seq 0 (S (S n))))
          (seq 0 64)
  = true.
Proof. vm_compute. reflexivity. Qed.

Lemma round_0 : Number.round 0 = 0.
Proof. reflexivity. Qed.

Lemma round_nonneg (x : Q) : 0 <= x -> 0 <= Number.round x.
Proof. intros Hx. rewrite <- round_0. apply round_mono; [apply Qle_refl|exact Hx]. Qed.

End Rounding.

(** ** Values the screen derives *)

Section Percentage.

Local Open Scope Q_scope.

Lemma of_nat_pos (n : nat) : (0 < n)%nat -> 0 < Number.of_nat n.
Proof.
  intros Hn. unfold Number.of_nat. change 0 with (inject_Z 0). rewrite <- Zlt_Qlt. lia.
Qed.

Lemma of_nat_le (c n : nat) : (c <= n)%nat -> Number.of_nat c <= Number.of_nat n.
Proof. intros H. unfold Number.of_nat. rewrite <- Zle_Qle. lia. Qed.

Lemma quotient_range (c n : nat) :
  (c <= n)%nat -> (0 < n)%nat ->
  0 <= Number.of_nat c / Number.of_nat n /\ Number.of_nat c / Number.of_nat n <= 1.
Proof.
  intros Hc Hn. pose proof (of_nat_pos n Hn) as Hpos. split.
  - apply Qle_shift_div_l; [exact Hpos|]. rewrite Qmult_0_l.
    change 0 with (Number.of_nat 0). apply of_nat_le. lia.
  - apply Qle_shift_div_r; [exact Hpos|]. rewrite Qmult_1_l. apply of_nat_le, Hc.
Qed.

Lemma percent_full (n : nat) :
  (0 < n)%nat ->
  Number.mul (Number.div (Number.of_nat n) (Number.of_nat n)) 100 = 100.
Proof.
  intros Hn. unfold Number.div.
  rewrite (round_compat _ 1); [reflexivity|].
  apply Qmult_inv_r. intros H0. pose proof (of_nat_pos n Hn) as Hpos.
  rewrite H0 in Hpos. exact (Qlt_irrefl 0 Hpos).
Qed.

Lemma percent_none (n : nat) :
  Number.mul (Number.div (Number.of_nat 0) (Number.of_nat n)) 100 = 0.
Proof.
  unfold Number.div. rewrite (round_compat _ 0); [reflexivity|].
  unfold Qdiv. apply Qmult_0_l.
Qed.

Lemma percent_range (c n : nat) :
  (c <= n)%nat -> (0 < n)%nat ->
  0 <= Number.mul (Number.div (Number.of_nat c) (Number.of_nat n)) 100
  /\ Number.mul (Number.div (Number.of_nat c) (Number.of_nat n)) 100 <= 100.
Proof.
  intros Hc Hn. destruct (quotient_range c n Hc Hn) as [Hq0 Hq1].
  unfold Number.mul, Number.div.
  pose proof (round_nonneg _ Hq0) as Hy0.
  assert (Hy1 : Number.round (Number.of_nat c / Number.of_nat n) <= 1).
  { change 1 with (Number.round 1). apply round_mono; assumption. }
  split.
  - apply round_nonneg. apply Qmult_le_0_compat; [exact Hy0|discriminate].
  - change 100 with (Number.round (1 * 100)) at 2.
    apply round_mono.
    + apply Qmult_le_0_compat; [exact Hy0|discriminate].
    + apply Qmult_le_compat_r; [exact Hy1|discriminate].
Qed.

(** Below 2^32 elements, a quotient short of 1 is at most 1 - 2^-32 and
    a positive one at least 2^-32; the roundings keep both away from
    100 and from 0. *)
Lemma percent_lt_100 (c n : nat) :
  (c < n)%nat -> (Z.of_nat n < 2 ^ 32)%Z ->
  Number.mul (Number.div (Number.of_nat c) (Number.of_nat n)) 100 < 100.
Proof.
  intros Hc Hn.
  assert (Hn0 : (0 < n)%nat) by lia.
  destruct (quotient_range c n ltac:(lia) Hn0) as [Hq0 _].
  assert (Hq : Number.of_nat c / Number.of_nat n <= 4294967295 # 4294967296).
  { apply Qle_shift_div_r; [apply of_nat_pos, Hn0|].
    unfold Number.of_nat, Qle. cbn [Qnum Qden Qmult inject_Z]. lia. }
  unfold Number.mul, Number.div.
  pose proof (round_nonneg _ Hq0) as Hy0.
  assert (Hy : Number.round (Number.of_nat c / Number.of_nat n)
               <= 4294967295 # 4294967296).
  { replace (4294967295 # 4294967296)
      with (Number.round (4294967295 # 4294967296)) by (vm_compute; reflexivity).
    apply round_mono; assumption. }
  apply Qle_lt_trans with (Number.round ((4294967295 # 4294967296) * 100)).
  - apply round_mono.
    + apply Qmult_le_0_compat; [exact Hy0|discriminate].
    + apply Qmult_le_compat_r; [exact Hy|discriminate].
  - vm_compute. reflexivity.
Qed.

Lemma percent_pos (c n : nat) :
  (0 < c)%nat -> (0 < n)%nat -> (Z.of_nat n < 2 ^ 32)%Z ->
  0 < Number.mul (Number.div (Number.of_nat c) (Number.of_nat n)) 100.
Proof.
  intros Hc Hn0 Hn.
  assert (Hq : 1 # 4294967296 <= Number.of_nat c / Number.of_nat n).
  { apply Qle_shift_div_l; [apply of_nat_pos, Hn0|].
    unfold Number.of_nat, Qle. cbn [Qnum Qden Qmult inject_Z]. lia. }
  unfold Number.mul, Number.div.
  assert (Hy : 1 # 4294967296 <= Number.round (Number.of_nat c / Number.of_nat n)).
  { replace (1 # 4294967296)
      with (Number.round (1 # 4294967296)) at 1 by (vm_compute; reflexivity).
    apply round_mono; [discriminate|exact Hq]. }
  apply Qlt_le_trans with (Number.round ((1 # 4294967296) * 100)).
  - vm_compute. reflexivity.
  - apply round_mono; [discriminate|].
    apply Qmult_le_compat_r; [exact Hy|discriminate].
Qed.

(** The two roundings together cost a relative error of at most
    2^-51. *)
Lemma percent_error (c n : nat) :
  (c <= n)%nat -> (0 < n)%nat -> (Z.of_nat n < 2 ^ 32)%Z ->
  Qabs (Number.mul (Number.div (Number.of_nat c) (Number.of_nat n)) 100
        - Number.of_nat c / Number.of_nat n * 100)
  <= Number.of_nat c / Number.of_nat n * 100 * (1 # 2251799813685248).
Proof.
  intros Hc Hn0 Hn. destruct c as [|c].
  - rewrite percent_none.
    assert (Hq0 : Number.of_nat 0 / Number.of_nat n == 0) by (unfold Qdiv; apply Qmult_0_l).
    rewrite Hq0. discriminate.
  - assert (Hq : 1 # 4294967296 <= Number.of_nat (S c) / Number.of_nat n).
    { apply Qle_shift_div_l; [apply of_nat_pos, Hn0|].
      unfold Number.of_nat, Qle. cbn [Qnum Qden Qmult inject_Z]. lia. }
    assert (Hsmall : 2 ^ (-1022) <= 1 # 4294967296) by (vm_compute; discriminate).
    unfold Number.mul, Number.div.
    set (q := Number.of_nat (S c) / Number.of_nat n) in *.
    pose proof (round_error q (Qle_trans _ _ _ Hsmall Hq)) as He1.
    set (y := Number.round q) in *.
    apply Qabs_Qle_condition in He1. destruct He1 as [He1 He1'].
    assert (Hy : 2 ^ (-1022) <= y * 100).
    { apply Qle_trans with (1 # 4294967296); [exact Hsmall|]. lra. }
    pose proof (round_error (y * 100) Hy) as He2.
    set (v := Number.round (y * 100)) in *.
    apply Qabs_Qle_condition in He2. destruct He2 as [He2 He2'].
    apply Qabs_Qle_condition. split; lra.
Qed.

End Percentage.

Lemma completionPercentage_known (state : AppState) (l : string) (ts : list Task.t) :
  l ≠ "" → tasks state !! l = Some ts →
  TaskListScreen.completionPercentage state (Some l)
  = Some (if (0 <? length ts)%nat
          then Number.mul
                 (Number.div (Number.of_nat (TaskListScreen.closeTaskCount ts))
                             (Number.of_nat (length ts)))
                 100
          else 0%Q).
Proof.
  intros Hl Hts. unfold TaskListScreen.completionPercentage, TaskListScreen.truthy.
  rewrite bool_decide_eq_false_2 by exact Hl. simpl.
  rewrite (read_own _ _ _ Hts). reflexivity.
Qed.

Lemma closeTaskCount_all_closed (ts : list Task.t) :
  Forall (fun task => Task.status task = CLOSED) ts →
  TaskListScreen.closeTaskCount ts = length ts.
Proof.
  unfold TaskListScreen.closeTaskCount.
  induction 1 as [|task ts Hc _ IH]; [reflexivity|].
  rewrite filter_cons_True by exact Hc. simpl. f_equal. exact IH.
Qed.

Lemma closeTaskCount_Permutation (ts ts' : list Task.t) :
  ts ≡ₚ ts' → TaskListScreen.closeTaskCount ts = TaskListScreen.closeTaskCount ts'.
Proof.
  intros Hp. unfold TaskListScreen.closeTaskCount.
  apply Permutation_length. rewrite Hp. reflexivity.
Qed.

(** *** C4 *)

(** C4, as amended: for the list the screen shows (a non-empty route
    parameter) with known slice [ts], the completion percentage is the
    binary64 quotient of the number of CLOSED tasks by the number of
    tasks, multiplied by 100 in binary64: it is within a relative error
    of 2^-51 of (CLOSED count / total count) * 100 for a slice of fewer
    than 2^32 tasks, but need not equal it. It is 0 when the slice is
    empty, 100 when the slice is not empty and every task is CLOSED,
    the same for any reordering of the slice, and 50 once FETCH_TASKS
    "L1" [T1 OPEN; T2 CLOSED] has been applied to the state with
    taskLists = [L1 "Home"] and no tasks. *)
Theorem completionPercentage_spec (state : AppState) (l : string) (ts : list Task.t) :
  l ≠ "" → tasks state !! l = Some ts →
  (∃ q, TaskListScreen.completionPercentage state (Some l) = Some q
        ∧ (ts ≠ [] →
           q = Number.mul
                 (Number.div
                    (Number.of_nat (length (filter (fun t => Task.status t = CLOSED) ts)))
                    (Number.of_nat (length ts)))
                 100)
        ∧ ((Z.of_nat (length ts) < 2 ^ 32)%Z →
           (Qabs (q - exact_percentage ts)
            <= exact_percentage ts * (1 # 2251799813685248))%Q))
  ∧ (ts = [] → TaskListScreen.completionPercentage state (Some l) = Some 0%Q)
  ∧ (ts ≠ [] → Forall (fun t => Task.status t = CLOSED) ts →
       TaskListScreen.completionPercentage state (Some l) = Some 100%Q)
  ∧ (∀ state' ts', tasks state' !! l = Some ts' → ts ≡ₚ ts' →
       TaskListScreen.completionPercentage state' (Some l)
       = TaskListScreen.completionPercentage state (Some l))
  ∧ (∀ t1 t2,
       Task.id t1 = "T1" → Task.status t1 = OPEN →
       Task.id t2 = "T2" → Task.status t2 = CLOSED →
       ∃ state1, reducer scenario_state (FETCH_TASKS "L1" [t1; t2]) = Some state1
         ∧ TaskListScreen.completionPercentage state1 (Some "L1") = Some 50%Q).
Proof.
  intros Hl Hts.
  pose proof (completionPercentage_known state l ts Hl Hts) as Hcp.
  split; [|split; [|split; [|split]]].
  - eexists. split; [exact Hcp|]. split.
    + intros Hne. destruct ts as [|t ts]; [congruence|]. reflexivity.
    + intros Hbound. destruct ts as [|t ts]; [discriminate|].
      change (0 <? length (t :: ts))%nat with true. cbv iota.
      apply percent_error; [apply length_filter|simpl; lia|exact Hbound].
  - intros ->. rewrite Hcp. reflexivity.
  - intros Hne Hall. rewrite Hcp. destruct ts as [|t ts]; [congruence|].
    rewrite closeTaskCount_all_closed by exact Hall.
    change (0 <? length (t :: ts))%nat with true. cbv iota.
    f_equal. apply percent_full. simpl. lia.
  - intros state' ts' Hts' Hp.
    rewrite Hcp, (completionPercentage_known state' l ts' Hl Hts').
    rewrite (closeTaskCount_Permutation ts ts' Hp), (Permutation_length Hp).
    reflexivity.
  - intros t1 t2 _ Ho _ Hc. eexists. split; [reflexivity|].
    erewrite completionPercentage_known; [|discriminate|simpl; apply lookup_insert_eq].
    unfold TaskListScreen.closeTaskCount.
    rewrite filter_cons_False by (rewrite Ho; discriminate).
    rewrite filter_cons_True by exact Hc.
    reflexivity.
Qed.

Lemma completionPercentage_spec_witness :
  TaskListScreen.completionPercentage
    {| taskLists := [L1]; tasks := {[ "L1" := [T2; T2] ]} |} (Some "L1") = Some 100%Q
  ∧ ∃ state1, reducer scenario_state (FETCH_TASKS "L1" [T1; T2]) = Some state1
      ∧ TaskListScreen.completionPercentage state1 (Some "L1") = Some 50%Q.
Proof.
  assert (Hl : "L1" ≠ "") by discriminate.
  assert (Hts : tasks {| taskLists := [L1]; tasks := {[ "L1" := [T2; T2] ]} |} !! "L1"
                = Some [T2; T2]) by reflexivity.
  destruct (completionPercentage_spec _ "L1" [T2; T2] Hl Hts)
    as (_ & _ & Hall & _ & Hscenario).
  split.
  - apply Hall; [discriminate|]. repeat constructor.
  - apply Hscenario; reflexivity.
Defined.

(** C4, as the specification words it, fails: with eleven of twenty
    tasks CLOSED the exact value is 55, and the screen computes
    55.00000000000001 (55 + 2^-47): 11 / 20 is rounded up to the nearest
    binary64, and so is its product by 100. *)
Lemma completionPercentage_not_exact :
  (exact_percentage eleven_of_twenty == 55)%Q
  ∧ TaskListScreen.completionPercentage progress_state (Some "L1")
    = Some (7740561859543041 # 140737488355328)%Q
  ∧ ¬ (7740561859543041 # 140737488355328 == exact_percentage eleven_of_twenty)%Q.
Proof.
  split; [reflexivity|]. split; [vm_compute; reflexivity|].
  vm_compute. discriminate.
Qed.

(** ** One slice under a sequence of commands *)

Section Slice.

Implicit Types (i : string) (task : Task.t) (ts : list Task.t).

Lemma task_is_true i task : task_is i task = true ↔ Task.id task = i.
Proof. unfold task_is. apply bool_decide_eq_true. Qed.

Lemma task_is_false i task : task_is i task = false ↔ Task.id task ≠ i.
Proof. unfold task_is. apply bool_decide_eq_false. Qed.

Lemma find_None_ids i ts : find (task_is i) ts = None ↔ i ∉ ids ts.
Proof.
  induction ts as [|t ts IH]; simpl.
  - split; [intros _; apply not_elem_of_nil|reflexivity].
  - rewrite not_elem_of_cons. destruct (task_is i t) eqn:Ht.
    + apply task_is_true in Ht. split; [discriminate|]. intros [Hne _]. congruence.
    + apply task_is_false in Ht. rewrite IH. split; [intros ?; split; congruence|tauto].
Qed.

Lemma find_Some_ids i task ts :
  NoDup (ids ts) → find (task_is i) ts = Some task ↔ task ∈ ts ∧ Task.id task = i.
Proof.
  induction ts as [|t ts IH]; simpl; intros Hnd.
  - split; [discriminate|]. intros [Hin _]. apply elem_of_nil in Hin. destruct Hin.
  - apply NoDup_cons in Hnd as [Hfresh Hnd]. rewrite elem_of_cons.
    destruct (task_is i t) eqn:Ht.
    + apply task_is_true in Ht. split.
      * intros [= ->]. auto.
      * intros [[->|Hin] Hid]; [reflexivity|].
        exfalso. apply Hfresh. rewrite Ht, <- Hid.
        apply list_elem_of_fmap. exists task. auto.
    + apply task_is_false in Ht. rewrite (IH Hnd). split.
      * intros [Hin Hid]. auto.
      * intros [[->|Hin] Hid]; [congruence|auto].
Qed.

Lemma find_snoc i task ts :
  Task.id task ∉ ids ts →
  find (task_is i) (ts ++ [task])
  = if task_is i task then Some task else find (task_is i) ts.
Proof.
  intros Hfresh. induction ts as [|t ts IH]; simpl; [reflexivity|].
  simpl in Hfresh. apply not_elem_of_cons in Hfresh as [Hne Hfresh].
  destruct (task_is i t) eqn:Ht.
  - apply task_is_true in Ht.
    rewrite (proj2 (task_is_false i task)) by congruence. reflexivity.
  - apply IH, Hfresh.
Qed.

Lemma ids_snoc task ts : ids (ts ++ [task]) = ids ts ++ [Task.id task].
Proof. unfold ids. apply map_app. Qed.

Lemma NoDup_ids_snoc task ts :
  NoDup (ids ts) → Task.id task ∉ ids ts → NoDup (ids (ts ++ [task])).
Proof.
  intros Hnd Hfresh. rewrite ids_snoc. apply NoDup_app.
  split; [exact Hnd|]. split; [|apply NoDup_singleton].
  intros x Hx Hx'. apply list_elem_of_singleton in Hx'. subst x. exact (Hfresh Hx).
Qed.

Lemma existsb_task_is i ts : existsb (task_is i) ts = false ↔ i ∉ ids ts.
Proof.
  induction ts as [|t ts IH]; simpl.
  - split; [intros _; apply not_elem_of_nil|reflexivity].
  - rewrite orb_false_iff, IH, not_elem_of_cons, task_is_false.
    split; intros [? ?]; split; congruence.
Qed.

Lemma ids_replace_task task ts : ids (replace_task (Task.id task) task ts) = ids ts.
Proof.
  unfold ids, replace_task. rewrite map_map. apply map_ext. intros t.
  destruct (task_is (Task.id task) t) eqn:Ht; [|reflexivity].
  apply task_is_true in Ht. congruence.
Qed.

Lemma find_replace_task i task ts :
  find (task_is i) (replace_task (Task.id task) task ts)
  = if task_is i task
    then (if existsb (task_is (Task.id task)) ts then Some task else None)
    else find (task_is i) ts.
Proof.
  induction ts as [|t ts IH]; simpl.
  - destruct (task_is i task); reflexivity.
  - destruct (task_is (Task.id task) t) eqn:Ht; simpl; rewrite IH.
    + apply task_is_true in Ht. destruct (task_is i task) eqn:Hi; [reflexivity|].
      apply task_is_false in Hi.
      rewrite (proj2 (task_is_false i t)) by congruence. reflexivity.
    + apply task_is_false in Ht. destruct (task_is i task) eqn:Hi.
      * apply task_is_true in Hi.
        rewrite (proj2 (task_is_false i t)) by congruence. reflexivity.
      * destruct (task_is i t); reflexivity.
Qed.

Lemma ids_filter_sublist (P : Task.t → Prop) `{∀ x, Decision (P x)} ts :
  ids (filter P ts) `sublist_of` ids ts.
Proof. unfold ids. apply (fmap_sublist Task.id), sublist_filter. Qed.

Lemma find_filter_other i taskId ts :
  find (task_is i) (filter (fun t => Task.id t ≠ taskId) ts)
  = if bool_decide (taskId = i) then None else find (task_is i) ts.
Proof.
  induction ts as [|t ts IH]; simpl.
  - destruct (bool_decide (taskId = i)); reflexivity.
  - rewrite filter_cons. destruct (decide (Task.id t ≠ taskId)) as [Hne|Heq]; simpl.
    + destruct (task_is i t) eqn:Ht; [|exact IH].
      apply task_is_true in Ht.
      rewrite bool_decide_eq_false_2 by congruence. reflexivity.
    + apply dec_stable in Heq. rewrite IH.
      destruct (bool_decide (taskId = i)) eqn:Hi; [reflexivity|].
      apply bool_decide_eq_false in Hi.
      rewrite (proj2 (task_is_false i t)) by congruence. reflexivity.
Qed.

End Slice.

Lemma slice_after_insert (m : gmap string (list Task.t)) (l : string) (ts : list Task.t) :
  slice_or_empty (<[l := ts]> m) l = ts.
Proof. unfold slice_or_empty. rewrite lookup_insert_eq. reflexivity. Qed.

Lemma ids_filter (taskId : string) (ts : list Task.t) :
  ids (filter (fun t => Task.id t ≠ taskId) ts) = filter (fun i => i ≠ taskId) (ids ts).
Proof.
  induction ts as [|t ts IH]; [reflexivity|]. simpl.
  rewrite !filter_cons. destruct (decide (Task.id t ≠ taskId)); simpl; rewrite IH; reflexivity.
Qed.

(** One command of an admissible sequence: it applies, the slice exists
    afterwards and keeps distinct ids, what it holds for each id moves
    as [reference] says, and the rest of the sequence is admissible
    from there. *)
Lemma slice_step (l : string) (state : AppState) (present : bool) (a : Action)
    (rest : list Action) :
  read (tasks state) l ≠ Inherited →
  (present = true → is_Some (tasks state !! l)) →
  NoDup (ids (slice_or_empty (tasks state) l)) →
  admissible l present (ids (slice_or_empty (tasks state) l)) (a :: rest) = true →
  ∃ state',
    reducer state a = Some state'
    ∧ is_Some (tasks state' !! l)
    ∧ NoDup (ids (slice_or_empty (tasks state') l))
    ∧ (∀ i, find (task_is i) (slice_or_empty (tasks state') l)
            = reference i (find (task_is i) (slice_or_empty (tasks state) l)) a)
    ∧ admissible l true (ids (slice_or_empty (tasks state') l)) rest = true.
Proof.
  intros Hread Hpresent Hnd Hadm.
  simpl in Hadm. apply andb_true_iff in Hadm as [Hcmd Hadm].
  destruct a as [| | | | |l' ts|l' task|l' task| |l' taskId];
    simpl in Hcmd; try discriminate Hcmd;
    apply bool_decide_eq_true in Hcmd; subst l'; simpl.
  - apply andb_true_iff in Hadm as [Hids Hrest]. apply bool_decide_eq_true in Hids.
    eexists. split; [reflexivity|]. simpl. rewrite slice_after_insert, lookup_insert_eq.
    split; [eauto|]. split; [exact Hids|]. split; [reflexivity|exact Hrest].
  - apply andb_true_iff in Hadm as [Hids Hrest]. apply bool_decide_eq_true in Hids.
    rewrite (array_or_empty_slice _ _ Hread).
    eexists. split; [reflexivity|]. simpl. rewrite slice_after_insert, lookup_insert_eq.
    split; [eauto|]. split; [apply NoDup_ids_snoc; assumption|].
    split; [intros i; apply find_snoc, Hids|].
    rewrite ids_snoc. exact Hadm || exact Hrest.
  - rewrite (array_or_empty_slice _ _ Hread).
    eexists. split; [reflexivity|]. simpl. rewrite slice_after_insert, lookup_insert_eq.
    split; [eauto|].
    destruct (existsb (task_is (Task.id task)) (slice_or_empty (tasks state) l))
      eqn:Hex.
    + assert (Hin : Task.id task ∈ ids (slice_or_empty (tasks state) l)).
      { destruct (decide (Task.id task ∈ ids (slice_or_empty (tasks state) l)))
          as [Hin|Hout]; [exact Hin|].
        apply existsb_task_is in Hout. congruence. }
      rewrite bool_decide_eq_true_2 in Hadm by exact Hin.
      split; [rewrite ids_replace_task; exact Hnd|].
      split; [intros i; rewrite find_replace_task, Hex; reflexivity|].
      rewrite ids_replace_task. exact Hadm.
    + apply existsb_task_is in Hex.
      rewrite bool_decide_eq_false_2 in Hadm by exact Hex.
      split; [apply NoDup_ids_snoc; assumption|].
      split; [intros i; apply find_snoc, Hex|].
      rewrite ids_snoc. exact Hadm.
  - apply andb_true_iff in Hadm as [Hp Hrest].
    destruct (Hpresent Hp) as [existing Hl].
    rewrite array_read, Hl.
    eexists. split; [reflexivity|]. simpl. rewrite slice_after_insert, lookup_insert_eq.
    assert (Hcur : slice_or_empty (tasks state) l = existing)
      by (unfold slice_or_empty; rewrite Hl; reflexivity).
    rewrite Hcur in *.
    split; [eauto|].
    split; [eapply sublist_NoDup; [exact Hnd|]; apply ids_filter_sublist|].
    split; [intros i; apply find_filter_other|].
    rewrite ids_filter. exact Hrest.
Qed.

Lemma admissible_run (l : string) (cmds : list Action) :
  ∀ state present,
    read (tasks state) l ≠ Inherited →
    (present = true → is_Some (tasks state !! l)) →
    NoDup (ids (slice_or_empty (tasks state) l)) →
    admissible l present (ids (slice_or_empty (tasks state) l)) cmds = true →
    ∃ state', run state cmds = Some state'
      ∧ NoDup (ids (slice_or_empty (tasks state') l))
      ∧ ∀ i, find (task_is i) (slice_or_empty (tasks state') l)
             = last_referenced i (slice_or_empty (tasks state) l) cmds.
Proof.
  induction cmds as [|a rest IH]; intros state present Hread Hpresent Hnd Hadm.
  - exists state. split; [reflexivity|]. split; [exact Hnd|reflexivity].
  - destruct (slice_step l state present a rest Hread Hpresent Hnd Hadm)
      as (state1 & Hred & Hsome & Hnd1 & Hfind1 & Hrest).
    assert (Hread1 : read (tasks state1) l ≠ Inherited).
    { destruct Hsome as [ts Hts]. rewrite (read_own _ _ _ Hts). discriminate. }
    destruct (IH state1 true Hread1 (fun _ => Hsome) Hnd1 Hrest)
      as (state' & Hrun & Hnd' & Hfind').
    exists state'. simpl. rewrite Hred.
    split; [exact Hrun|]. split; [exact Hnd'|].
    intros i. rewrite Hfind'. unfold last_referenced. simpl.
    rewrite Hfind1. reflexivity.
Qed.

(** *** C2 *)

(** C2, as amended: take a list id that does not name an inherited
    property of the tasks object unless the store owns a slice for it,
    a state whose tasks[listId] holds no id twice (or is absent), and
    any finite sequence of FETCH_TASKS, CREATE_TASK, GET_TASK and
    DELETE_TASK commands on that list id in which the ids are the
    server's (no id twice in a fetched list, a created task's id not
    yet in the slice) and DELETE_TASK comes only once the slice exists.
    The sequence then applies without fault, and the resulting
    tasks[listId] holds exactly one entry per task id present after the
    sequence, equal to the payload of the last command that referenced
    the id (to the starting entry when none did). *)
Theorem slice_one_entry_per_id (state : AppState) (l : string) (cmds : list Action) :
  read (tasks state) l ≠ Inherited →
  NoDup (ids (slice_or_empty (tasks state) l)) →
  admissible l (bool_decide (is_Some (tasks state !! l)))
    (ids (slice_or_empty (tasks state) l)) cmds = true →
  ∃ state', run state cmds = Some state'
    ∧ one_entry_per_id (slice_or_empty (tasks state) l) cmds
                       (slice_or_empty (tasks state') l).
Proof.
  intros Hread Hnd Hadm.
  destruct (admissible_run l cmds state _ Hread
              (fun H => proj1 (bool_decide_eq_true _) H) Hnd Hadm)
    as (state' & Hrun & Hnd' & Hfind).
  exists state'. split; [exact Hrun|]. split; [exact Hnd'|].
  intros task. rewrite <- Hfind, (find_Some_ids _ _ _ Hnd'). tauto.
Qed.

Lemma slice_one_entry_per_id_witness :
  ∃ state',
    run initialState
      [FETCH_TASKS "L1" [T1; T2]; GET_TASK "L1" T1'; DELETE_TASK "L1" "T2"]
    = Some state'
    ∧ slice_or_empty (tasks state') "L1" = [T1']
    ∧ one_entry_per_id []
        [FETCH_TASKS "L1" [T1; T2]; GET_TASK "L1" T1'; DELETE_TASK "L1" "T2"]
        (slice_or_empty (tasks state') "L1").
Proof.
  assert (Hread : read (tasks initialState) "L1" ≠ Inherited)
    by (vm_compute; discriminate).
  assert (Hnd : NoDup (ids (slice_or_empty (tasks initialState) "L1")))
    by apply NoDup_nil_2.
  assert (Hadm : admissible "L1" (bool_decide (is_Some (tasks initialState !! "L1")))
                   (ids (slice_or_empty (tasks initialState) "L1"))
                   [FETCH_TASKS "L1" [T1; T2]; GET_TASK "L1" T1'; DELETE_TASK "L1" "T2"]
                 = true) by (vm_compute; reflexivity).
  destruct (slice_one_entry_per_id initialState "L1" _ Hread Hnd Hadm)
    as (state' & Hrun & Hone).
  exists state'. split; [exact Hrun|]. split; [|exact Hone].
  vm_compute in Hrun. injection Hrun as <-. vm_compute. reflexivity.
Defined.

(** Without the first proviso the sequence can fault: "constructor"
    names a function every object inherits, which CREATE_TASK cannot
    spread. *)
Example create_task_under_inherited_name :
  reducer initialState (CREATE_TASK "constructor" T1) = None
  ∧ reducer initialState (GET_TASK "toString" T1) = None.
Proof. split; reflexivity. Qed.

Example two_creates_two_entries :
  ∃ state', run initialState [CREATE_TASK "L1" T1; CREATE_TASK "L1" T1'] = Some state'
    ∧ tasks state' !! "L1" = Some [T1; T1'].
Proof. eexists. split; reflexivity. Qed.

(** C2, as the specification words it, fails: CREATE_TASK appends
    whatever it is given, so two of them carrying the id "T1" leave two
    entries under that id, the first of which is not the payload of the
    last command. *)
Lemma unique_last_wins_fails :
  ¬ unique_last_wins initialState "L1" [CREATE_TASK "L1" T1; CREATE_TASK "L1" T1'].
Proof.
  intros Hclaim.
  destruct (Hclaim eq_refl _ eq_refl) as [Hnd _].
  vm_compute in Hnd.
  apply NoDup_cons in Hnd as [Hfresh _]. apply Hfresh. left.
Qed.

(** ** Toggling a task *)

Lemma replace_task_only (task saved : Task.t) :
  replace_task (Task.id task) saved [task] = [saved].
Proof.
  unfold replace_task, task_is. simpl.
  rewrite bool_decide_eq_true_2 by reflexivity. reflexivity.
Qed.

Lemma completionPercentage_single_closed (state : AppState) (l : string) (task : Task.t) :
  l ≠ "" → tasks state !! l = Some [task] → Task.status task = CLOSED →
  TaskListScreen.completionPercentage state (Some l) = Some 100%Q.
Proof.
  intros Hl Hts Hc. rewrite (completionPercentage_known state l [task] Hl Hts).
  unfold TaskListScreen.closeTaskCount.
  rewrite filter_cons_True by exact Hc. reflexivity.
Qed.

Lemma toggle_trace (API_BASE_URL l : string) (task : Task.t)
    (put : Axios.Wire Task.t) (get : Axios.Wire (list Task.t)) :
  l ≠ "" →
  Task.status task = OPEN →
  trace (TaskListScreen.toggleStatus API_BASE_URL (Some l) task put get)
  = Request PUT (api.task_url API_BASE_URL l (Task.id task))
      (TaskBody (Task.with_status task CLOSED))
    :: match Axios.settle put with
       | Axios.Rejected error =>
           [ConsoleError [LText "Error updating task:"; api.context error];
            ConsoleError [LText "Error updating task:"; LError error]]
       | Axios.Fulfilled saved =>
           Dispatch (UPDATE_TASK l (Task.id task) saved)
           :: Request GET (api.tasks_url API_BASE_URL l) NoBody
           :: match Axios.settle get with
              | Axios.Rejected error =>
                  [ConsoleError [LText "Error fetching tasks:"; api.context error];
                   ConsoleError [LText "Error updating task:"; LError error]]
              | Axios.Fulfilled fetched => [Dispatch (FETCH_TASKS l fetched)]
              end
       end.
Proof.
  intros Hl Hopen.
  unfold TaskListScreen.toggleStatus, TaskListScreen.truthy.
  rewrite (bool_decide_eq_false_2 _ Hl), Hopen. simpl negb. cbv iota.
  rewrite bool_decide_eq_false_2 by discriminate.
  unfold api.updateTask, api.fetchTasks, await_axios, trace. simpl.
  destruct (Axios.settle put) as [saved|error]; simpl; [|reflexivity].
  destruct (Axios.settle get) as [fetched|error]; reflexivity.
Qed.

#[local] Arguments replace_task : simpl never.
#[local] Arguments TaskListScreen.completionPercentage : simpl never.

(** *** C5 *)

(** C5, as amended: toggling task T1 of the list on screen from OPEN to
    CLOSED first sends a PUT whose body is the whole task object with
    status CLOSED. If the PUT fails nothing is dispatched. If the
    server accepts it, the command applied to the store is UPDATE_TASK
    (ReplaceTaskField) whose payload is the task the server returned,
    followed by FETCH_TASKS (ReplaceTasks) with the fetched tasks
    exactly when the chained fetch succeeds. In no case is GET_TASK
    (UpsertTask) dispatched. With T1 the only task of the list, the
    server returning it CLOSED under the same id, and the fetch failing
    or returning that one task, the completion percentage of the list
    becomes 100. *)
Theorem toggle_open_task_closes (API_BASE_URL l : string) (T : Task.t)
    (state : AppState) (put : Axios.Wire Task.t) (get : Axios.Wire (list Task.t)) :
  l ≠ "" →
  Task.status T = OPEN →
  head (trace (TaskListScreen.toggleStatus API_BASE_URL (Some l) T put get))
  = Some (Request PUT (api.task_url API_BASE_URL l (Task.id T))
            (TaskBody (Task.with_status T CLOSED)))
  ∧ (∀ l' payload,
       GET_TASK l' payload
       ∉ dispatched (trace (TaskListScreen.toggleStatus API_BASE_URL (Some l) T put get)))
  ∧ (Axios.failed put = true →
     dispatched (trace (TaskListScreen.toggleStatus API_BASE_URL (Some l) T put get))
     = [])
  ∧ ∀ saved, Axios.settle put = Axios.Fulfilled saved →
      (∀ fetched, Axios.settle get = Axios.Fulfilled fetched →
         dispatched (trace (TaskListScreen.toggleStatus API_BASE_URL (Some l) T put get))
         = [UPDATE_TASK l (Task.id T) saved; FETCH_TASKS l fetched])
      ∧ (Axios.failed get = true →
         dispatched (trace (TaskListScreen.toggleStatus API_BASE_URL (Some l) T put get))
         = [UPDATE_TASK l (Task.id T) saved])
      ∧ (tasks state !! l = Some [T] →
         Task.id saved = Task.id T →
         Task.status saved = CLOSED →
         Axios.failed get = true ∨ Axios.settle get = Axios.Fulfilled [saved] →
         ∃ state',
           after state
             (trace (TaskListScreen.toggleStatus API_BASE_URL (Some l) T put get))
           = Some state'
           ∧ tasks state' !! l = Some [saved]
           ∧ TaskListScreen.completionPercentage state' (Some l) = Some 100%Q).
Proof.
  intros Hl Hopen. rewrite (toggle_trace API_BASE_URL l T put get Hl Hopen).
  split; [reflexivity|]. split; [|split].
  - intros l' payload Hin.
    destruct (Axios.settle put) as [saved|error]; simpl in Hin.
    + apply elem_of_cons in Hin as [Hin|Hin]; [discriminate Hin|].
      destruct (Axios.settle get) as [fetched|error]; simpl in Hin.
      * apply list_elem_of_singleton in Hin. discriminate Hin.
      * apply elem_of_nil in Hin. exact Hin.
    + apply elem_of_nil in Hin. exact Hin.
  - intros Hfail. destruct (failed_rejects put Hfail) as [error ->]. reflexivity.
  - intros saved ->. split; [|split].
    + intros fetched ->. reflexivity.
    + intros Hfail. destruct (failed_rejects get Hfail) as [error ->]. reflexivity.
    + intros Hts Hid Hclosed Hget. unfold after.
      assert (Hupd : reducer state (UPDATE_TASK l (Task.id T) saved)
                     = Some {| taskLists := taskLists state;
                               tasks := <[l := [saved]]> (tasks state) |}).
      { simpl. rewrite array_read, Hts, replace_task_only. reflexivity. }
      destruct Hget as [Hfail|Hget].
      * destruct (failed_rejects get Hfail) as [error ->]. cbn [dispatched run].
        rewrite Hupd. eexists. split; [reflexivity|].
        simpl. rewrite lookup_insert_eq. split; [reflexivity|].
        apply completionPercentage_single_closed with saved;
          [exact Hl|apply lookup_insert_eq|exact Hclosed].
      * rewrite Hget. cbn [dispatched run]. rewrite Hupd.
        eexists. split; [reflexivity|].
        simpl. rewrite lookup_insert_eq. split; [reflexivity|].
        apply completionPercentage_single_closed with saved;
          [exact Hl|apply lookup_insert_eq|exact Hclosed].
Qed.

Lemma toggle_open_task_closes_witness :
  dispatched
    (trace (TaskListScreen.toggleStatus base_url (Some "L1") T1
              (Axios.Answered (ok None) T1_closed)
              (Axios.Answered (ok None) [T1_closed])))
  = [UPDATE_TASK "L1" "T1" T1_closed; FETCH_TASKS "L1" [T1_closed]]
  ∧ ∃ state',
      after one_task_state
        (trace (TaskListScreen.toggleStatus base_url (Some "L1") T1
                  (Axios.Answered (ok None) T1_closed)
                  (Axios.Answered (ok None) [T1_closed])))
      = Some state'
      ∧ tasks state' !! "L1" = Some [T1_closed]
      ∧ TaskListScreen.completionPercentage state' (Some "L1") = Some 100%Q.
Proof.
  assert (Hl : "L1" ≠ "") by discriminate.
  destruct (toggle_open_task_closes base_url "L1" T1 one_task_state
              (Axios.Answered (ok None) T1_closed)
              (Axios.Answered (ok None) [T1_closed]) Hl eq_refl)
    as (_ & _ & _ & Hok).
  destruct (Hok T1_closed eq_refl) as (Hboth & _ & Hscenario).
  split; [apply Hboth; reflexivity|].
  apply Hscenario; [reflexivity|reflexivity|reflexivity|right; reflexivity].
Defined.

(** C5, as the specification words it, fails: the toggle hands the
    store UPDATE_TASK and then FETCH_TASKS; no GET_TASK (UpsertTask) is
    among the commands it dispatches. *)
Lemma toggle_dispatches_no_upsert :
  dispatched
    (trace (TaskListScreen.toggleStatus base_url (Some "L1") T1
              (Axios.Answered (ok None) T1_closed)
              (Axios.Answered (ok None) [T1_closed])))
  = [UPDATE_TASK "L1" "T1" T1_closed; FETCH_TASKS "L1" [T1_closed]]
  ∧ ¬ ∃ payload,
        GET_TASK "L1" payload
        ∈ dispatched
            (trace (TaskListScreen.toggleStatus base_url (Some "L1") T1
                      (Axios.Answered (ok None) T1_closed)
                      (Axios.Answered (ok None) [T1_closed]))).
Proof.
  assert (Hd : dispatched
                 (trace (TaskListScreen.toggleStatus base_url (Some "L1") T1
                           (Axios.Answered (ok None) T1_closed)
                           (Axios.Answered (ok None) [T1_closed])))
               = [UPDATE_TASK "L1" "T1" T1_closed; FETCH_TASKS "L1" [T1_closed]])
    by reflexivity.
  split; [exact Hd|].
  rewrite Hd. intros [payload Hin].
  apply elem_of_cons in Hin as [Hin|Hin]; [discriminate Hin|].
  apply elem_of_cons in Hin as [Hin|Hin]; [discriminate Hin|].
  apply elem_of_nil in Hin. exact Hin.
Qed.

(** The two commands are not interchangeable: on a list without slice
    UPDATE_TASK faults where GET_TASK creates the slice. *)
Example update_task_is_not_upsert :
  reducer scenario_state (UPDATE_TASK "L1" "T1" T1_closed) = None
  ∧ ∃ state', reducer scenario_state (GET_TASK "L1" T1_closed) = Some state'
      ∧ tasks state' !! "L1" = Some [T1_closed].
Proof. split; [reflexivity|]. eexists. split; reflexivity. Qed.

(** ** The shape of the reducer *)

Lemma reducer_list_command (state : AppState) (a : Action) :
  list_command a = true →
  reducer state a
  = Some {| taskLists := lists_update a (taskLists state); tasks := tasks state |}.
Proof. destruct a; simpl; intros H; try discriminate H; reflexivity. Qed.

Lemma reducer_task_command (state : AppState) (a : Action) (l : string) :
  task_list_of a = Some l →
  reducer state a
  = (fun v => {| taskLists := taskLists state; tasks := <[l := v]> (tasks state) |})
    <$> slice_update a (read (tasks state) l).
Proof.
  destruct a; simpl; intros H; try discriminate H; injection H as ->;
    try reflexivity; destruct (read (tasks state) l); reflexivity.
Qed.

Lemma command_kinds (a : Action) :
  list_command a = true ∨ ∃ l, task_list_of a = Some l.
Proof. destruct a; simpl; eauto. Qed.

Lemma slice_update_other (a : Action) (l l' : string) (v : list Task.t)
    (m : gmap string (list Task.t)) :
  l' ≠ l → slice_update a (read (<[l' := v]> m) l) = slice_update a (read m l).
Proof. intros Hne. rewrite read_insert_ne by exact Hne. reflexivity. Qed.

(** X1: the five commands on task lists never fault and leave the whole
    [tasks] mapping as it was. *)
Theorem list_commands_frame (state : AppState) (a : Action) :
  list_command a = true →
  ∃ state', reducer state a = Some state' ∧ tasks state' = tasks state.
Proof.
  intros Ha. rewrite (reducer_list_command state a Ha).
  eexists. split; reflexivity.
Qed.

Lemma list_commands_frame_witness :
  ∃ state', reducer one_task_state (GET_TASKLIST L2) = Some state'
    ∧ tasks state' = tasks one_task_state.
Proof. apply (list_commands_frame one_task_state (GET_TASKLIST L2)). reflexivity. Defined.

(** X2: a task command that applies changes nothing but the slice of
    the list id it addresses: [taskLists] and every other slice are
    what they were. *)
Theorem task_commands_frame (state state' : AppState) (a : Action) (l : string) :
  task_list_of a = Some l →
  reducer state a = Some state' →
  taskLists state' = taskLists state
  ∧ ∀ l', l' ≠ l → tasks state' !! l' = tasks state !! l'.
Proof.
  intros Ha Hred. rewrite (reducer_task_command state a l Ha) in Hred.
  destruct (slice_update a (read (tasks state) l)) as [v|]; [|discriminate Hred].
  injection Hred as <-. simpl. split; [reflexivity|].
  intros l' Hne. apply lookup_insert_ne. congruence.
Qed.

Lemma task_commands_frame_witness :
  ∃ state', reducer one_task_state (CREATE_TASK "L2" T2) = Some state'
    ∧ taskLists state' = [L1]
    ∧ tasks state' !! "L1" = Some [T1].
Proof.
  destruct (reducer one_task_state (CREATE_TASK "L2" T2)) as [state'|] eqn:Hred;
    [|discriminate Hred].
  exists state'. split; [reflexivity|].
  destruct (task_commands_frame one_task_state state' (CREATE_TASK "L2" T2) "L2"
              eq_refl Hred) as [Hl Ht].
  split; [exact Hl|]. rewrite Ht by discriminate. reflexivity.
Defined.

(** X3: a command on task lists and a command on tasks commute: applied
    in either order they give the same state, or fault alike. *)
Theorem list_and_task_commands_commute (state : AppState) (a b : Action) (l : string) :
  list_command a = true →
  task_list_of b = Some l →
  run state [a; b] = run state [b; a].
Proof.
  intros Ha Hb. simpl.
  rewrite (reducer_list_command state a Ha), (reducer_task_command _ b l Hb).
  rewrite (reducer_task_command state b l Hb). simpl.
  destruct (slice_update b (read (tasks state) l)) as [v|]; simpl; [|reflexivity].
  rewrite (reducer_list_command _ a Ha). reflexivity.
Qed.

Lemma list_and_task_commands_commute_witness :
  run one_task_state [DELETE_TASKLIST "L1"; DELETE_TASK "L1" "T1"]
  = run one_task_state [DELETE_TASK "L1" "T1"; DELETE_TASKLIST "L1"].
Proof.
  apply (list_and_task_commands_commute one_task_state _ _ "L1"); reflexivity.
Defined.

(** X4: task commands addressed to two different list ids commute:
    applied in either order they give the same state, or fault alike. *)
Theorem task_commands_on_distinct_lists_commute (state : AppState) (a b : Action)
    (la lb : string) :
  task_list_of a = Some la →
  task_list_of b = Some lb →
  la ≠ lb →
  run state [a; b] = run state [b; a].
Proof.
  intros Ha Hb Hne. simpl.
  rewrite (reducer_task_command state a la Ha), (reducer_task_command state b lb Hb).
  destruct (slice_update a (read (tasks state) la)) as [va|] eqn:Hva;
    destruct (slice_update b (read (tasks state) lb)) as [vb|] eqn:Hvb; simpl.
  - rewrite (reducer_task_command _ b lb Hb), (reducer_task_command _ a la Ha). simpl.
    rewrite slice_update_other by exact Hne.
    rewrite slice_update_other by congruence.
    rewrite Hva, Hvb. simpl. f_equal. f_equal.
    apply insert_insert_ne. congruence.
  - rewrite (reducer_task_command _ b lb Hb). simpl.
    rewrite slice_update_other by exact Hne. rewrite Hvb. reflexivity.
  - rewrite (reducer_task_command _ a la Ha). simpl.
    rewrite slice_update_other by congruence. rewrite Hva. reflexivity.
  - reflexivity.
Qed.

Lemma task_commands_on_distinct_lists_commute_witness :
  run one_task_state [GET_TASK "L1" T1_closed; CREATE_TASK "L2" T2]
  = run one_task_state [CREATE_TASK "L2" T2; GET_TASK "L1" T1_closed].
Proof.
  apply (task_commands_on_distinct_lists_commute one_task_state _ _ "L1" "L2");
    [reflexivity|reflexivity|discriminate].
Defined.

(** ** Applying a command twice *)

Lemma tl_is_true (i : string) (wl : TaskList.t) : tl_is i wl = true ↔ TaskList.id wl = i.
Proof. unfold tl_is. apply bool_decide_eq_true. Qed.

Lemma tl_is_false (i : string) (wl : TaskList.t) : tl_is i wl = false ↔ TaskList.id wl ≠ i.
Proof. unfold tl_is. apply bool_decide_eq_false. Qed.

Lemma existsb_tl_is (i : string) (l : list TaskList.t) :
  existsb (tl_is i) l = false ↔ i ∉ list_ids l.
Proof.
  induction l as [|wl l IH]; simpl.
  - split; [intros _; apply not_elem_of_nil|reflexivity].
  - rewrite orb_false_iff, IH, not_elem_of_cons, tl_is_false.
    split; intros [? ?]; split; congruence.
Qed.

Lemma not_in_list_ids (i : string) (l : list TaskList.t) :
  i ∉ list_ids l → ∀ wl, wl ∈ l → TaskList.id wl ≠ i.
Proof.
  intros Hfresh wl Hin Heq. apply Hfresh. rewrite <- Heq.
  apply list_elem_of_fmap. exists wl. auto.
Qed.

Lemma replace_tl_idem (p : TaskList.t) (l : list TaskList.t) :
  replace_tl p (replace_tl p l) = replace_tl p l.
Proof.
  unfold replace_tl. rewrite map_map. apply map_ext. intros wl.
  destruct (tl_is (TaskList.id p) wl) eqn:Hwl; [|rewrite Hwl; reflexivity].
  destruct (tl_is (TaskList.id p) p); reflexivity.
Qed.

Lemma list_ids_replace_tl (p : TaskList.t) (l : list TaskList.t) :
  list_ids (replace_tl p l) = list_ids l.
Proof.
  unfold list_ids, replace_tl. rewrite map_map. apply map_ext. intros wl.
  destruct (tl_is (TaskList.id p) wl) eqn:Hwl; [|reflexivity].
  apply tl_is_true in Hwl. congruence.
Qed.

Lemma existsb_list_ids (i : string) (l l' : list TaskList.t) :
  list_ids l = list_ids l' → existsb (tl_is i) l = existsb (tl_is i) l'.
Proof.
  intros Hids.
  destruct (existsb (tl_is i) l') eqn:H'.
  - apply not_false_iff_true. rewrite existsb_tl_is, Hids, <- existsb_tl_is.
    congruence.
  - apply existsb_tl_is. rewrite Hids. apply existsb_tl_is. exact H'.
Qed.

Lemma replace_tl_snoc (p : TaskList.t) (l : list TaskList.t) :
  existsb (tl_is (TaskList.id p)) l = false →
  existsb (tl_is (TaskList.id p)) (l ++ [p]) = true
  ∧ replace_tl p (l ++ [p]) = l ++ [p].
Proof.
  intros Hex. split.
  - rewrite existsb_app. simpl.
    rewrite (proj2 (tl_is_true _ p)) by reflexivity. apply orb_true_iff. auto.
  - unfold replace_tl. rewrite map_app. simpl.
    rewrite (proj2 (tl_is_true _ p)) by reflexivity. f_equal.
    apply replace_tl_unknown, not_in_list_ids, existsb_tl_is, Hex.
Qed.

Lemma lists_update_idem (a : Action) (l : list TaskList.t) :
  appends a = false → lists_update a (lists_update a l) = lists_update a l.
Proof.
  destruct a as [X|p|p|p|i| | | | |]; simpl; intros Ha; try discriminate Ha;
    try reflexivity.
  - destruct (existsb (tl_is (TaskList.id p)) l) eqn:Hex.
    + rewrite (existsb_list_ids _ _ l (list_ids_replace_tl p l)), Hex.
      apply replace_tl_idem.
    + destruct (replace_tl_snoc p l Hex) as [-> ->]. reflexivity.
  - apply replace_tl_idem.
  - rewrite list_filter_filter. apply list_filter_iff. tauto.
Qed.

Lemma replace_task_idem (i : string) (p : Task.t) (ts : list Task.t) :
  replace_task i p (replace_task i p ts) = replace_task i p ts.
Proof.
  unfold replace_task. rewrite map_map. apply map_ext. intros t.
  destruct (task_is i t) eqn:Ht; [|rewrite Ht; reflexivity].
  destruct (task_is i p); reflexivity.
Qed.

Lemma existsb_ids (i : string) (ts ts' : list Task.t) :
  ids ts = ids ts' → existsb (task_is i) ts = existsb (task_is i) ts'.
Proof.
  intros Hids.
  destruct (existsb (task_is i) ts') eqn:H'.
  - apply not_false_iff_true. rewrite existsb_task_is, Hids, <- existsb_task_is.
    congruence.
  - apply existsb_task_is. rewrite Hids. apply existsb_task_is. exact H'.
Qed.

Lemma replace_task_unknown (i : string) (p : Task.t) (ts : list Task.t) :
  i ∉ ids ts → replace_task i p ts = ts.
Proof.
  intros Hfresh. unfold replace_task.
  induction ts as [|t ts IH]; [reflexivity|]. simpl in *.
  apply not_elem_of_cons in Hfresh as [Hne Hfresh].
  rewrite (proj2 (task_is_false i t)) by congruence. f_equal. apply IH, Hfresh.
Qed.

Lemma replace_task_snoc (p : Task.t) (ts : list Task.t) :
  existsb (task_is (Task.id p)) ts = false →
  existsb (task_is (Task.id p)) (ts ++ [p]) = true
  ∧ replace_task (Task.id p) p (ts ++ [p]) = ts ++ [p].
Proof.
  intros Hex. split.
  - rewrite existsb_app. simpl.
    rewrite (proj2 (task_is_true _ p)) by reflexivity. apply orb_true_iff. auto.
  - unfold replace_task. rewrite map_app. simpl.
    rewrite (proj2 (task_is_true _ p)) by reflexivity. f_equal.
    apply replace_task_unknown, existsb_task_is, Hex.
Qed.

Lemma slice_update_idem (a : Action) (cur : Slot) (v : list Task.t) :
  appends a = false → slice_update a cur = Some v → slice_update a (Own v) = Some v.
Proof.
  destruct a as [| | | | |l ts|l t|l t|l i t|l i]; simpl; intros Ha Hv;
    try discriminate Ha; try congruence.
  - destruct (array_or_empty cur) as [existing|]; [|discriminate Hv].
    injection Hv as <-. f_equal.
    destruct (existsb (task_is (Task.id t)) existing) eqn:Hex.
    + rewrite (existsb_ids _ _ existing (ids_replace_task t _)), Hex.
      apply replace_task_idem.
    + destruct (replace_task_snoc t _ Hex) as [-> ->]. reflexivity.
  - destruct (array cur) as [ts|]; [|discriminate Hv]. injection Hv as <-.
    f_equal. apply replace_task_idem.
  - destruct (array cur) as [ts|]; [|discriminate Hv]. injection Hv as <-.
    f_equal. rewrite list_filter_filter. apply list_filter_iff. tauto.
Qed.

(** X5: every command but the two appending ones (CREATE_TASKLIST,
    CREATE_TASK) is idempotent: applied a second time it changes
    nothing, and when it faults it faults the first time. *)
Theorem commands_idempotent (state : AppState) (a : Action) :
  appends a = false → run state [a; a] = run state [a].
Proof.
  intros Ha. simpl.
  destruct (command_kinds a) as [Hl|[l Ht]].
  - rewrite (reducer_list_command state a Hl), (reducer_list_command _ a Hl). simpl.
    rewrite lists_update_idem by exact Ha. reflexivity.
  - rewrite (reducer_task_command state a l Ht).
    destruct (slice_update a (read (tasks state) l)) as [v|] eqn:Hv; simpl; [|reflexivity].
    rewrite (reducer_task_command _ a l Ht). simpl.
    rewrite read_insert, (slice_update_idem a _ v Ha Hv). simpl.
    rewrite insert_insert_eq. reflexivity.
Qed.

Lemma commands_idempotent_witness :
  run one_task_state [GET_TASK "L1" T2; GET_TASK "L1" T2]
  = run one_task_state [GET_TASK "L1" T2].
Proof. apply (commands_idempotent one_task_state (GET_TASK "L1" T2)). reflexivity. Defined.

(** The appending commands are not: a second CREATE_TASK adds a second
    entry. *)
Example create_task_not_idempotent :
  run one_task_state [CREATE_TASK "L1" T2; CREATE_TASK "L1" T2]
  ≠ run one_task_state [CREATE_TASK "L1" T2].
Proof.
  intros H. vm_compute in H. discriminate H.
Qed.

(** ** A fetch replaces what was there *)

(** X6: a fetch overwrites the effect of the command before it: any
    command on task lists followed by FETCH_TASKLISTS gives the state
    FETCH_TASKLISTS alone gives, and any task command on list [l] that
    applied, followed by FETCH_TASKS on [l], gives the state FETCH_TASKS
    alone gives. *)
Theorem fetch_overwrites (state : AppState) (a : Action) :
  (list_command a = true → ∀ X,
     run state [a; FETCH_TASKLISTS X] = run state [FETCH_TASKLISTS X])
  ∧ (∀ l ts, task_list_of a = Some l → is_Some (reducer state a) →
       run state [a; FETCH_TASKS l ts] = run state [FETCH_TASKS l ts]).
Proof.
  split.
  - intros Ha X. simpl. rewrite (reducer_list_command state a Ha). reflexivity.
  - intros l ts Ha [state1 Hred]. simpl. rewrite Hred.
    rewrite (reducer_task_command state a l Ha) in Hred.
    destruct (slice_update a (read (tasks state) l)) as [v|]; [|discriminate Hred].
    injection Hred as <-. simpl. rewrite insert_insert_eq. reflexivity.
Qed.

Lemma fetch_overwrites_witness :
  run one_task_state [UPDATE_TASK "L1" "T1" T1_closed; FETCH_TASKS "L1" [T1; T2]]
  = run one_task_state [FETCH_TASKS "L1" [T1; T2]].
Proof.
  apply (fetch_overwrites one_task_state (UPDATE_TASK "L1" "T1" T1_closed));
    [reflexivity|]. vm_compute. eauto.
Defined.

(** ** Task lists by id *)

Lemma taskList_find (state : AppState) (i : string) :
  TaskListScreen.taskList state (Some i) = find (tl_is i) (taskLists state).
Proof.
  unfold TaskListScreen.taskList. induction (taskLists state) as [|wl l IH]; simpl.
  - reflexivity.
  - rewrite IH. destruct (decide (TaskList.id wl = i)) as [Heq|Hne].
    + rewrite bool_decide_eq_true_2 by congruence.
      rewrite (proj2 (tl_is_true i wl)) by exact Heq. reflexivity.
    + rewrite bool_decide_eq_false_2 by congruence.
      rewrite (proj2 (tl_is_false i wl)) by exact Hne. reflexivity.
Qed.

Lemma find_replace_tl (i : string) (p : TaskList.t) (l : list TaskList.t) :
  find (tl_is i) (replace_tl p l)
  = if tl_is i p
    then (if existsb (tl_is (TaskList.id p)) l then Some p else None)
    else find (tl_is i) l.
Proof.
  induction l as [|wl l IH]; simpl.
  - destruct (tl_is i p); reflexivity.
  - destruct (tl_is (TaskList.id p) wl) eqn:Hwl; simpl; rewrite IH.
    + apply tl_is_true in Hwl. destruct (tl_is i p) eqn:Hi; [reflexivity|].
      apply tl_is_false in Hi.
      rewrite (proj2 (tl_is_false i wl)) by congruence. reflexivity.
    + apply tl_is_false in Hwl. destruct (tl_is i p) eqn:Hi.
      * apply tl_is_true in Hi.
        rewrite (proj2 (tl_is_false i wl)) by congruence. reflexivity.
      * destruct (tl_is i wl); reflexivity.
Qed.

Lemma find_tl_snoc (i : string) (p : TaskList.t) (l : list TaskList.t) :
  TaskList.id p ∉ list_ids l →
  find (tl_is i) (l ++ [p]) = if tl_is i p then Some p else find (tl_is i) l.
Proof.
  intros Hfresh. induction l as [|wl l IH]; simpl; [reflexivity|].
  simpl in Hfresh. apply not_elem_of_cons in Hfresh as [Hne Hfresh].
  destruct (tl_is i wl) eqn:Hwl.
  - apply tl_is_true in Hwl.
    rewrite (proj2 (tl_is_false i p)) by congruence. reflexivity.
  - apply IH, Hfresh.
Qed.

Lemma find_tl_filter (i id : string) (l : list TaskList.t) :
  find (tl_is i) (filter (fun wl => TaskList.id wl ≠ id) l)
  = if bool_decide (id = i) then None else find (tl_is i) l.
Proof.
  induction l as [|wl l IH]; simpl.
  - destruct (bool_decide (id = i)); reflexivity.
  - rewrite filter_cons. destruct (decide (TaskList.id wl ≠ id)) as [Hne|Heq]; simpl.
    + destruct (tl_is i wl) eqn:Hwl; [|exact IH].
      apply tl_is_true in Hwl.
      rewrite bool_decide_eq_false_2 by congruence. reflexivity.
    + apply dec_stable in Heq. rewrite IH.
      destruct (bool_decide (id = i)) eqn:Hi; [reflexivity|].
      apply bool_decide_eq_false in Hi.
      rewrite (proj2 (tl_is_false i wl)) by congruence. reflexivity.
Qed.

(** X7: after GET_TASKLIST the screen of the payload's id finds the
    payload (and shows its title), whether the list was known or not,
    and what the screen of any other id finds is as before. *)
Theorem get_tasklist_then_find (state : AppState) (p : TaskList.t) :
  ∃ state', reducer state (GET_TASKLIST p) = Some state'
    ∧ TaskListScreen.taskList state' (Some (TaskList.id p)) = Some p
    ∧ TaskListScreen.heading state' (Some (TaskList.id p)) = TaskList.title p
    ∧ ∀ i, i ≠ TaskList.id p →
        TaskListScreen.taskList state' (Some i) = TaskListScreen.taskList state (Some i).
Proof.
  eexists. split; [reflexivity|].
  assert (Hfind : ∀ i,
            find (tl_is i)
              (if existsb (tl_is (TaskList.id p)) (taskLists state)
               then replace_tl p (taskLists state) else taskLists state ++ [p])
            = if tl_is i p then Some p else find (tl_is i) (taskLists state)).
  { intros i. destruct (existsb (tl_is (TaskList.id p)) (taskLists state)) eqn:Hex.
    - rewrite find_replace_tl, Hex. reflexivity.
    - apply find_tl_snoc, existsb_tl_is, Hex. }
  assert (Hp : TaskListScreen.taskList
                 {| taskLists :=
                      if existsb (tl_is (TaskList.id p)) (taskLists state)
                      then replace_tl p (taskLists state) else taskLists state ++ [p];
                    tasks := tasks state |} (Some (TaskList.id p)) = Some p).
  { rewrite taskList_find. simpl. rewrite Hfind.
    rewrite (proj2 (tl_is_true _ p)) by reflexivity. reflexivity. }
  split; [exact Hp|]. split.
  - unfold TaskListScreen.heading. rewrite Hp. reflexivity.
  - intros i Hne. rewrite !taskList_find. simpl. rewrite Hfind.
    rewrite (proj2 (tl_is_false i p)) by congruence. reflexivity.
Qed.

(** X8: after DELETE_TASKLIST of the list on screen the screen no longer
    finds the list and falls back to the heading "Unknown Task List",
    while its completion percentage is what it was, computed from the
    slice that is still cached. *)
Theorem delete_tasklist_on_screen (state : AppState) (id : string) :
  ∃ state', reducer state (DELETE_TASKLIST id) = Some state'
    ∧ TaskListScreen.taskList state' (Some id) = None
    ∧ TaskListScreen.heading state' (Some id) = "Unknown Task List"
    ∧ TaskListScreen.completionPercentage state' (Some id)
      = TaskListScreen.completionPercentage state (Some id).
Proof.
  eexists. split; [reflexivity|].
  assert (Hnone : TaskListScreen.taskList
                    {| taskLists := filter (fun wl => TaskList.id wl ≠ id) (taskLists state);
                       tasks := tasks state |} (Some id) = None).
  { rewrite taskList_find. simpl. rewrite find_tl_filter.
    rewrite bool_decide_eq_true_2 by reflexivity. reflexivity. }
  split; [exact Hnone|]. split.
  - unfold TaskListScreen.heading. rewrite Hnone. reflexivity.
  - reflexivity.
Qed.

(** X9: the commands on task lists keep ids distinct, provided the ids
    they bring are the server's: a fetched list has no id twice and a
    created list has an id not yet present. GET_TASKLIST,
    UPDATE_TASKLIST and DELETE_TASKLIST need no such proviso. *)
Theorem list_commands_keep_ids_distinct (state state' : AppState) (a : Action) :
  list_command a = true →
  match a with
  | FETCH_TASKLISTS X => NoDup (list_ids X)
  | CREATE_TASKLIST p => TaskList.id p ∉ list_ids (taskLists state)
  | _ => True
  end →
  NoDup (list_ids (taskLists state)) →
  reducer state a = Some state' →
  NoDup (list_ids (taskLists state')).
Proof.
  intros Ha Hids Hnd Hred.
  assert (Hsnoc : ∀ p, TaskList.id p ∉ list_ids (taskLists state) →
                       NoDup (list_ids (taskLists state ++ [p]))).
  { intros p Hfresh. unfold list_ids. rewrite map_app. apply NoDup_app.
    split; [exact Hnd|]. split; [|apply NoDup_singleton].
    intros x Hx Hx'. apply list_elem_of_singleton in Hx'. subst x. exact (Hfresh Hx). }
  destruct a as [X|p|p|p|i| | | | |]; simpl in Ha, Hred; try discriminate Ha;
    injection Hred as <-; simpl.
  - exact Hids.
  - destruct (existsb (tl_is (TaskList.id p)) (taskLists state)) eqn:Hex.
    + rewrite list_ids_replace_tl. exact Hnd.
    + apply Hsnoc, existsb_tl_is, Hex.
  - apply Hsnoc, Hids.
  - rewrite list_ids_replace_tl. exact Hnd.
  - eapply sublist_NoDup; [exact Hnd|].
    unfold list_ids. apply (fmap_sublist TaskList.id), sublist_filter.
Qed.

Lemma list_commands_keep_ids_distinct_witness :
  ∃ state', reducer scenario_state (CREATE_TASKLIST L2) = Some state'
    ∧ NoDup (list_ids (taskLists state')).
Proof.
  destruct (reducer scenario_state (CREATE_TASKLIST L2)) as [state'|] eqn:Hred;
    [|discriminate Hred].
  exists state'. split; [reflexivity|].
  apply (list_commands_keep_ids_distinct scenario_state state' (CREATE_TASKLIST L2));
    [reflexivity| |apply NoDup_singleton|exact Hred].
  simpl. intros Hin. apply list_elem_of_singleton in Hin. discriminate Hin.
Defined.

(** ** Replacing and removing one task *)

Lemma filter_unknown (i : string) (ts : list Task.t) :
  i ∉ ids ts → filter (fun t => Task.id t ≠ i) ts = ts.
Proof.
  induction ts as [|t ts IH]; intros Hfresh; [reflexivity|].
  simpl in Hfresh. apply not_elem_of_cons in Hfresh as [Hne Hfresh].
  rewrite filter_cons_True by congruence. f_equal. apply IH, Hfresh.
Qed.

Lemma state_insert_same (state : AppState) (l : string) (ts : list Task.t) :
  tasks state !! l = Some ts →
  {| taskLists := taskLists state; tasks := <[l := ts]> (tasks state) |} = state.
Proof.
  intros Hts. destruct state as [tls m]. simpl in *.
  rewrite insert_id by exact Hts. reflexivity.
Qed.

(** X10: on an existing slice, UPDATE_TASK and DELETE_TASK for a task id
    the slice does not hold return the state they were given: nothing
    is replaced, appended or removed. *)
Theorem unknown_task_id_is_noop (state : AppState) (l taskId : string)
    (ts : list Task.t) (task : Task.t) :
  tasks state !! l = Some ts →
  taskId ∉ ids ts →
  reducer state (UPDATE_TASK l taskId task) = Some state
  ∧ reducer state (DELETE_TASK l taskId) = Some state.
Proof.
  intros Hts Hfresh. simpl. rewrite (read_own _ _ _ Hts). simpl.
  rewrite replace_task_unknown, filter_unknown by exact Hfresh.
  rewrite state_insert_same by exact Hts. split; reflexivity.
Qed.

Lemma unknown_task_id_is_noop_witness :
  reducer one_task_state (UPDATE_TASK "L1" "T2" T2) = Some one_task_state
  ∧ reducer one_task_state (DELETE_TASK "L1" "T2") = Some one_task_state.
Proof.
  apply (unknown_task_id_is_noop one_task_state "L1" "T2" [T1] T2); [reflexivity|].
  simpl. intros Hin. apply list_elem_of_singleton in Hin. discriminate Hin.
Defined.

(** X11: UPDATE_TASK on an existing slice keeps the slice's length and
    order: position by position, an entry whose id is [taskId] becomes
    the payload and any other entry stays. The ids of the slice are
    kept when the payload carries the id [taskId]. *)
Theorem update_task_in_place (state : AppState) (l taskId : string)
    (ts : list Task.t) (task : Task.t) :
  tasks state !! l = Some ts →
  ∃ state' ts',
    reducer state (UPDATE_TASK l taskId task) = Some state'
    ∧ tasks state' !! l = Some ts'
    ∧ length ts' = length ts
    ∧ (∀ k t, ts !! k = Some t →
         ts' !! k = Some (if decide (Task.id t = taskId) then task else t))
    ∧ (Task.id task = taskId → ids ts' = ids ts).
Proof.
  intros Hts. simpl. rewrite (read_own _ _ _ Hts). simpl.
  eexists _, _. split; [reflexivity|]. simpl.
  split; [apply lookup_insert_eq|].
  split; [unfold replace_task; apply length_map|].
  split.
  - intros k t Hk. unfold replace_task.
    change (map ?f ts) with (f <$> ts). rewrite list_lookup_fmap, Hk. simpl.
    unfold task_is. destruct (decide (Task.id t = taskId)) as [Heq|Hne].
    + rewrite bool_decide_eq_true_2 by exact Heq. reflexivity.
    + rewrite bool_decide_eq_false_2 by exact Hne. reflexivity.
  - intros <-. apply ids_replace_task.
Qed.

Lemma update_task_in_place_witness :
  ∃ state', reducer one_task_state (UPDATE_TASK "L1" "T1" T1_closed) = Some state'
    ∧ tasks state' !! "L1" = Some [T1_closed].
Proof.
  destruct (update_task_in_place one_task_state "L1" "T1" [T1] T1_closed eq_refl)
    as (state' & ts' & Hred & Hts' & _).
  exists state'. split; [exact Hred|].
  vm_compute in Hred. injection Hred as <-. reflexivity.
Defined.

(** X12: on an existing slice, DELETE_TASK leaves a subsequence of the
    slice that holds no entry with the removed id and every entry with
    another id; deleting the same id again changes nothing more. *)
Theorem delete_task_exact (state : AppState) (l taskId : string) (ts : list Task.t) :
  tasks state !! l = Some ts →
  ∃ state' ts',
    reducer state (DELETE_TASK l taskId) = Some state'
    ∧ tasks state' !! l = Some ts'
    ∧ ts' `sublist_of` ts
    ∧ (taskId ∉ ids ts')
    ∧ (∀ t, t ∈ ts' ↔ t ∈ ts ∧ Task.id t ≠ taskId)
    ∧ reducer state' (DELETE_TASK l taskId) = Some state'.
Proof.
  intros Hts. simpl. rewrite (read_own _ _ _ Hts). simpl.
  eexists _, _. split; [reflexivity|]. simpl.
  rewrite lookup_insert_eq, read_insert. simpl.
  assert (Hgone : taskId ∉ ids (filter (fun t => Task.id t ≠ taskId) ts)).
  { unfold ids. intros Hin. apply list_elem_of_fmap in Hin as (t & Hid & Hin).
    apply list_elem_of_filter in Hin as [Hne _]. congruence. }
  split; [reflexivity|].
  split; [apply sublist_filter|].
  split; [exact Hgone|].
  split.
  - intros t. rewrite list_elem_of_filter. tauto.
  - rewrite filter_unknown by exact Hgone. rewrite insert_insert_eq. reflexivity.
Qed.

Lemma delete_task_exact_witness :
  ∃ state', reducer one_task_state (DELETE_TASK "L1" "T1") = Some state'
    ∧ reducer state' (DELETE_TASK "L1" "T1") = Some state'.
Proof.
  destruct (delete_task_exact one_task_state "L1" "T1" [T1] eq_refl)
    as (state' & ts' & Hred & _ & _ & _ & _ & Hagain).
  exists state'. split; [exact Hred|exact Hagain].
Defined.

(** X13: on an existing slice, CREATE_TASK of a task whose id the slice
    does not hold, followed by DELETE_TASK of that id, gives back the
    state before the two commands. *)
Theorem create_then_delete (state : AppState) (l : string) (ts : list Task.t)
    (task : Task.t) :
  tasks state !! l = Some ts →
  Task.id task ∉ ids ts →
  run state [CREATE_TASK l task; DELETE_TASK l (Task.id task)] = Some state.
Proof.
  intros Hts Hfresh. simpl. rewrite (read_own _ _ _ Hts). simpl.
  rewrite read_insert. simpl.
  rewrite filter_app, filter_unknown by exact Hfresh.
  rewrite filter_cons_False by (intros Hne; apply Hne; reflexivity).
  rewrite filter_nil, app_nil_r, insert_insert_eq.
  rewrite state_insert_same by exact Hts. reflexivity.
Qed.

Lemma create_then_delete_witness :
  run one_task_state [CREATE_TASK "L1" T2; DELETE_TASK "L1" "T2"] = Some one_task_state.
Proof.
  apply (create_then_delete one_task_state "L1" [T1] T2); [reflexivity|].
  simpl. intros Hin. apply list_elem_of_singleton in Hin. discriminate Hin.
Defined.

(** X14: CREATE_TASK faults exactly when the list id names a property
    every object inherits ("constructor", "toString", ...) and the store
    owns no slice under it. For any other list id without slice it
    creates the slice with the task as its only entry, and on an
    existing slice it adds the task after all entries, so the slice
    grows by one. *)
Theorem create_task_appends (state : AppState) (l : string) (task : Task.t) :
  (reducer state (CREATE_TASK l task) = None
   ↔ tasks state !! l = None ∧ l ∈ Object_prototype)
  ∧ (tasks state !! l = None → l ∉ Object_prototype →
     ∃ state', reducer state (CREATE_TASK l task) = Some state'
       ∧ tasks state' !! l = Some [task])
  ∧ (∀ ts, tasks state !! l = Some ts →
       ∃ state', reducer state (CREATE_TASK l task) = Some state'
         ∧ tasks state' !! l = Some (ts ++ [task])
         ∧ last (slice_or_empty (tasks state') l) = Some task
         ∧ length (slice_or_empty (tasks state') l) = S (length ts)).
Proof.
  split; [|split].
  - rewrite <- read_inherited. simpl.
    destruct (read (tasks state) l); simpl; split; congruence.
  - intros Habsent Hplain. simpl. rewrite (read_plain _ _ Habsent Hplain). simpl.
    eexists. split; [reflexivity|]. simpl. apply lookup_insert_eq.
  - intros ts Hts. simpl. rewrite (read_own _ _ _ Hts). simpl.
    eexists. split; [reflexivity|]. simpl.
    rewrite slice_after_insert, lookup_insert_eq.
    split; [reflexivity|]. split; [apply last_snoc|].
    rewrite length_app. simpl. lia.
Qed.

Lemma create_task_appends_witness :
  (∃ state', reducer scenario_state (CREATE_TASK "L1" T1) = Some state'
     ∧ tasks state' !! "L1" = Some [T1])
  ∧ reducer scenario_state (CREATE_TASK "constructor" T1) = None.
Proof.
  destruct (create_task_appends scenario_state "L1" T1) as (_ & Hnew & _).
  destruct (create_task_appends scenario_state "constructor" T1) as (Hfault & _ & _).
  split.
  - apply Hnew; [reflexivity|]. vm_compute. intros H.
    repeat (apply elem_of_cons in H as [H|H]; [discriminate H|]).
    apply elem_of_nil in H. exact H.
  - apply Hfault. split; [reflexivity|]. unfold Object_prototype. left.
Defined.

(** ** The range of the completion percentage *)

Lemma closeTaskCount_le (ts : list Task.t) :
  (TaskListScreen.closeTaskCount ts <= length ts)%nat.
Proof. unfold TaskListScreen.closeTaskCount. apply length_filter. Qed.

Lemma closeTaskCount_full (ts : list Task.t) :
  TaskListScreen.closeTaskCount ts = length ts →
  Forall (fun t => Task.status t = CLOSED) ts.
Proof.
  unfold TaskListScreen.closeTaskCount.
  induction ts as [|t ts IH]; intros Hlen; [constructor|].
  rewrite filter_cons in Hlen. destruct (decide (Task.status t = CLOSED)) as [Hc|Hc].
  - simpl in Hlen. constructor; [exact Hc|]. apply IH. lia.
  - pose proof (length_filter (fun t => Task.status t = CLOSED) ts). simpl in Hlen. lia.
Qed.

Lemma closeTaskCount_none (ts : list Task.t) :
  TaskListScreen.closeTaskCount ts = 0%nat ↔ Forall (fun t => Task.status t ≠ CLOSED) ts.
Proof.
  unfold TaskListScreen.closeTaskCount. induction ts as [|t ts IH].
  - split; [constructor|reflexivity].
  - rewrite filter_cons, Forall_cons.
    destruct (decide (Task.status t = CLOSED)) as [Hc|Hc]; simpl.
    + split; [discriminate|]. intros [Hn _]. contradiction.
    + rewrite IH. tauto.
Qed.

(** X15: whenever the completion percentage is computed it lies between
    0 and 100, whatever the store holds; the computation throws exactly
    when the route parameter is the non-empty name of a property every
    object inherits and the store owns no slice under it. *)
Theorem completionPercentage_range (state : AppState) (listId : option string) :
  (∀ q, TaskListScreen.completionPercentage state listId = Some q →
        (0 <= q ∧ q <= 100)%Q)
  ∧ (TaskListScreen.completionPercentage state listId = None
     ↔ ∃ l, listId = Some l ∧ l ≠ "" ∧ tasks state !! l = None ∧ l ∈ Object_prototype).
Proof.
  unfold TaskListScreen.completionPercentage.
  assert (Hzero : ∀ q, Some 0%Q = Some q → (0 <= q ∧ q <= 100)%Q).
  { intros q [= <-]. split; discriminate. }
  destruct listId as [l|].
  2: { split; [exact Hzero|]. split; [discriminate|]. intros (l & Hl & _). discriminate Hl. }
  unfold TaskListScreen.truthy. destruct (decide (l = "")) as [Hl|Hl].
  { rewrite bool_decide_eq_true_2 by exact Hl. simpl.
    split; [exact Hzero|]. split; [discriminate|].
    intros (l' & [= <-] & Hne & _). contradiction. }
  rewrite bool_decide_eq_false_2 by exact Hl. simpl.
  pose proof (read_inherited (tasks state) l) as Hinh.
  destruct (read (tasks state) l) as [ts| |].
  - split.
    + intros q [= <-]. destruct (0 <? length ts)%nat eqn:Hlen; [|split; discriminate].
      apply Nat.ltb_lt in Hlen.
      apply percent_range; [apply closeTaskCount_le|exact Hlen].
    + split; [discriminate|]. intros (l' & [= <-] & _ & Habs & Hin).
      assert (H : Own ts = Inherited) by (apply Hinh; auto). discriminate H.
  - split; [discriminate|]. split; [|reflexivity].
    intros _. exists l. destruct Hinh as [Hinh _]. destruct (Hinh eq_refl). auto.
  - split; [exact Hzero|]. split; [discriminate|].
    intros (l' & [= <-] & _ & Habs & Hin).
    assert (H : Undefined = Inherited) by (apply Hinh; auto). discriminate H.
Qed.

(** X16: for the list on screen with a known slice of fewer than 2^32
    tasks (the bound of an array), the completion percentage is 100
    exactly when the slice is not empty and every task in it is CLOSED,
    and 0 exactly when no task in it is CLOSED (the empty slice
    included). *)
Theorem completionPercentage_extremes (state : AppState) (l : string) (ts : list Task.t) :
  l ≠ "" → tasks state !! l = Some ts →
  (Z.of_nat (length ts) < 2 ^ 32)%Z →
  (TaskListScreen.completionPercentage state (Some l) = Some 100%Q
   ↔ ts ≠ [] ∧ Forall (fun t => Task.status t = CLOSED) ts)
  ∧ (TaskListScreen.completionPercentage state (Some l) = Some 0%Q
     ↔ Forall (fun t => Task.status t ≠ CLOSED) ts).
Proof.
  intros Hl Hts Hbound. rewrite (completionPercentage_known state l ts Hl Hts).
  destruct ts as [|t ts].
  - simpl. split.
    + split; [discriminate|]. intros [Hne _]. congruence.
    + split; [constructor|reflexivity].
  - assert (Hne : t :: ts ≠ []) by discriminate.
    assert (Hn : (0 < length (t :: ts))%nat) by (simpl; lia).
    revert Hbound Hne Hn. generalize (t :: ts). clear t ts Hts.
    intros ts Hbound Hne Hn.
    rewrite (proj2 (Nat.ltb_lt _ _) Hn).
    pose proof (closeTaskCount_le ts) as Hle.
    split.
    + split.
      * intros [= H100]. split; [exact Hne|]. apply closeTaskCount_full.
        destruct (decide (TaskListScreen.closeTaskCount ts = length ts))
          as [Heq|Hneq]; [exact Heq|]. exfalso.
        assert (Hlt : (TaskListScreen.closeTaskCount ts < length ts)%nat) by lia.
        pose proof (percent_lt_100 _ _ Hlt Hbound) as Hlt100.
        rewrite H100 in Hlt100. exact (Qlt_irrefl _ Hlt100).
      * intros [_ Hall]. rewrite (closeTaskCount_all_closed _ Hall).
        f_equal. apply percent_full, Hn.
    + rewrite <- closeTaskCount_none. split.
      * intros [= H0].
        destruct (TaskListScreen.closeTaskCount ts) as [|c] eqn:Hc; [reflexivity|].
        exfalso. assert (Hpos : (0 < S c)%nat) by lia.
        pose proof (percent_pos _ _ Hpos Hn Hbound) as Hgt.
        rewrite H0 in Hgt. exact (Qlt_irrefl _ Hgt).
      * intros ->. rewrite percent_none. reflexivity.
Qed.

Lemma completionPercentage_extremes_witness :
  TaskListScreen.completionPercentage one_task_state (Some "L1") ≠ Some 100%Q
  ∧ TaskListScreen.completionPercentage one_task_state (Some "L1") = Some 0%Q.
Proof.
  assert (Hl : "L1" ≠ "") by discriminate.
  assert (Hbound : (Z.of_nat (length [T1]) < 2 ^ 32)%Z) by reflexivity.
  destruct (completionPercentage_extremes one_task_state "L1" [T1] Hl eq_refl Hbound)
    as [H100 H0].
  split.
  - intros H. apply H100 in H as [_ Hall].
    apply Forall_cons in Hall as [Hc _]. discriminate Hc.
  - apply H0. repeat constructor. discriminate.
Defined.

(** X17: without a usable list id (the route parameter is undefined or
    the empty string), or without a slice for a list id that names no
    inherited property, the completion percentage is 0, whatever else
    the store holds. *)
Theorem completionPercentage_nothing_known (state : AppState) (listId : option string) :
  TaskListScreen.truthy listId = false
  ∨ (∃ l, listId = Some l ∧ tasks state !! l = None ∧ l ∉ Object_prototype) →
  TaskListScreen.completionPercentage state listId = Some 0%Q.
Proof.
  unfold TaskListScreen.completionPercentage.
  intros [Hfalsy|(l & -> & Habsent & Hplain)].
  - destruct listId as [l|]; [|reflexivity]. rewrite Hfalsy. reflexivity.
  - rewrite (read_plain _ _ Habsent Hplain).
    destruct (TaskListScreen.truthy (Some l)); reflexivity.
Qed.

Lemma completionPercentage_nothing_known_witness :
  TaskListScreen.completionPercentage
    {| taskLists := []; tasks := {[ "" := [T2] ]} |} (Some "") = Some 0%Q.
Proof.
  apply completionPercentage_nothing_known. left. reflexivity.
Defined.

(** ** The client when the request succeeds *)

Lemma settle_cases {A : Type} (w : Axios.Wire A) :
  (Axios.failed w = true ∧ ∃ error, Axios.settle w = Axios.Rejected error)
  ∨ (Axios.failed w = false ∧ ∃ data, Axios.settle w = Axios.Fulfilled data).
Proof.
  destruct w as [reason|r parsed]; simpl.
  - left. eauto.
  - destruct (Axios.validateStatus (Axios.status r)); simpl; [right|left]; eauto.
Qed.

Ltac unfold_client :=
  unfold api.fetchTaskLists, api.getTaskList, api.createTaskList, api.getTask,
    api.updateTaskList, api.deleteTaskList, api.fetchTasks, api.createTask,
    api.updateTask, api.deleteTask, await_axios, dispatch, emit, after,
    completion, trace.

(** X18: whichever of the ten client operations is called, if its
    request is fulfilled then the operation dispatches exactly one
    command, the one built from the response body, logs no error and
    completes normally. *)
Theorem fulfilled_call_dispatches_once (API_BASE_URL : string) (c : api.Call)
    (w : Axios.Wire (api.reply c)) (data : api.reply c) :
  Axios.settle w = Axios.Fulfilled data →
  completion (api.invoke API_BASE_URL c w) = inr tt
  ∧ dispatched (trace (api.invoke API_BASE_URL c w)) = [command_of c data]
  ∧ errors_logged (trace (api.invoke API_BASE_URL c w)) = 0%nat.
Proof.
  intros Hok.
  destruct c; simpl in *; unfold_client; simpl; rewrite Hok; simpl;
    repeat split; try reflexivity; destruct data; reflexivity.
Qed.

Lemma fulfilled_call_dispatches_once_witness :
  dispatched (trace (api.getTask base_url "L1" "T1" (Axios.Answered (ok None) T1_closed)))
  = [GET_TASK "L1" T1_closed].
Proof.
  apply (fulfilled_call_dispatches_once base_url (api.GetTask "L1" "T1")
           (Axios.Answered (ok None) T1_closed) T1_closed eq_refl).
Defined.

(** X19: every client operation makes exactly one HTTP request, whatever
    the outcome (no retry); it dispatches a command exactly when the
    request did not fail and throws exactly when it failed. *)
Theorem one_request_per_call (API_BASE_URL : string) (c : api.Call)
    (w : Axios.Wire (api.reply c)) :
  length (requests (trace (api.invoke API_BASE_URL c w))) = 1%nat
  ∧ (dispatched (trace (api.invoke API_BASE_URL c w)) ≠ [] ↔ Axios.failed w = false)
  ∧ ((∃ error, completion (api.invoke API_BASE_URL c w) = inl error)
     ↔ Axios.failed w = true).
Proof.
  destruct (settle_cases w) as [[Hf [error Hs]]|[Hf [data Hs]]]; rewrite Hf.
  - destruct c; simpl in *; unfold_client; simpl; rewrite Hs; simpl;
      (split; [reflexivity|]); (split; [split; [congruence|discriminate]|]);
      (split; [reflexivity|]); eauto.
  - destruct c; simpl in *; unfold_client; simpl; rewrite Hs; simpl;
      (split; [reflexivity|]);
      (split; [split; [reflexivity|discriminate]|]);
      (split; [intros [? ?]; discriminate|discriminate]).
Qed.

(** X20: updateTask and deleteTask called for a list whose slice the
    store does not hold (its tasks were never fetched) make the store
    fault even though the server accepted the request, while fetchTasks
    on the same list goes through and establishes the slice. createTask
    and getTask establish it too, unless the list id names a property
    every object inherits, in which case they make the store fault as
    well. *)
Theorem accepted_call_on_absent_slice (API_BASE_URL : string) (state : AppState)
    (l taskId : string) (task : Task.t) (draft : Body) (fetched : list Task.t)
    (r : Axios.Response) :
  Axios.validateStatus (Axios.status r) = true →
  tasks state !! l = None →
  after state (trace (api.updateTask API_BASE_URL l taskId task (Axios.Answered r task)))
  = None
  ∧ after state (trace (api.deleteTask API_BASE_URL l taskId (Axios.Answered r tt)))
    = None
  ∧ (∃ state', after state
                 (trace (api.fetchTasks API_BASE_URL l (Axios.Answered r fetched)))
               = Some state'
       ∧ tasks state' !! l = Some fetched)
  ∧ (l ∉ Object_prototype →
     (∃ state', after state
                  (trace (api.createTask API_BASE_URL l draft (Axios.Answered r task)))
                = Some state'
        ∧ tasks state' !! l = Some [task])
     ∧ (∃ state', after state
                    (trace (api.getTask API_BASE_URL l taskId (Axios.Answered r task)))
                  = Some state'
          ∧ tasks state' !! l = Some [task]))
  ∧ (l ∈ Object_prototype →
     after state (trace (api.createTask API_BASE_URL l draft (Axios.Answered r task)))
     = None
     ∧ after state (trace (api.getTask API_BASE_URL l taskId (Axios.Answered r task)))
       = None).
Proof.
  intros Hok Habsent. unfold_client. simpl. rewrite Hok. simpl.
  rewrite (read_absent _ _ Habsent).
  split; [reflexivity|]. split; [reflexivity|].
  split; [eexists; split; [reflexivity|]; simpl; apply lookup_insert_eq|].
  split.
  - intros Hplain. rewrite (read_plain _ _ Habsent Hplain). simpl.
    split; eexists; (split; [reflexivity|]); simpl; apply lookup_insert_eq.
  - intros Hin.
    assert (Hinh : read (tasks state) l = Inherited) by (apply read_inherited; auto).
    rewrite Hinh. split; reflexivity.
Qed.

Lemma accepted_call_on_absent_slice_witness :
  after scenario_state
    (trace (api.updateTask base_url "L1" "T1" T1_closed (Axios.Answered (ok None) T1_closed)))
  = None.
Proof.
  apply (accepted_call_on_absent_slice base_url scenario_state "L1" "T1" T1_closed
           NoBody [] (ok None) eq_refl eq_refl).
Defined.

(** ** The handlers of the screen *)

Ltac unfold_screen :=
  unfold TaskListScreen.toggleStatus, TaskListScreen.loadInitialData,
    TaskListScreen.deleteTaskList, TaskListScreen.onClick_deleteTask,
    TaskListScreen.then_, TaskListScreen.catch_, TaskListScreen.finally_,
    TaskListScreen.client, TaskListScreen.ui, TaskListScreen.skip;
  unfold_client.

Ltac settle_with w :=
  let Hf := fresh "Hf" in
  let Hs := fresh "Hs" in
  destruct (settle_cases w) as [[Hf [? Hs]]|[Hf [? Hs]]];
  rewrite ?Hs; simpl.

(** X21: no handler of the screen lets an error escape: toggling a
    task, deleting a task, deleting the list and loading the screen all
    complete normally, whatever the route parameter is and whatever the
    network answers. *)
Theorem handlers_never_throw (API_BASE_URL : string) (state : AppState)
    (listId : option string) (task : Task.t)
    (put wtask : Axios.Wire Task.t) (get : Axios.Wire (list Task.t))
    (wdel : Axios.Wire unit) (wlist : Axios.Wire TaskList.t) :
  completion (TaskListScreen.toggleStatus API_BASE_URL listId task put get) = inr tt
  ∧ completion (TaskListScreen.onClick_deleteTask API_BASE_URL listId task wdel) = inr tt
  ∧ snd (TaskListScreen.deleteTaskList API_BASE_URL listId wdel) = inr tt
  ∧ snd (TaskListScreen.loadInitialData API_BASE_URL state listId wlist get) = inr tt.
Proof.
  unfold_screen.
  destruct listId as [l|]; [|repeat split].
  destruct (TaskListScreen.truthy (Some l)); [|repeat split].
  destruct (TaskListScreen.taskList state (Some l));
    settle_with put; settle_with get; settle_with wdel; settle_with wlist;
    repeat split.
Qed.

(** X22: without a usable list id (undefined or empty route parameter)
    no handler makes a request or dispatches a command; each only logs
    that the list id is undefined, and loading clears the spinner. *)
Theorem handlers_without_list_id (API_BASE_URL : string) (state : AppState)
    (listId : option string) (task : Task.t)
    (put : Axios.Wire Task.t) (get : Axios.Wire (list Task.t))
    (wdel : Axios.Wire unit) (wlist : Axios.Wire TaskList.t) :
  TaskListScreen.truthy listId = false →
  trace (TaskListScreen.toggleStatus API_BASE_URL listId task put get)
  = [ConsoleError [LText "listId is undefined"]]
  ∧ trace (TaskListScreen.onClick_deleteTask API_BASE_URL listId task wdel)
    = [ConsoleError [LText "listId is undefined"]]
  ∧ fst (TaskListScreen.deleteTaskList API_BASE_URL listId wdel)
    = [TaskListScreen.Client (ConsoleError [LText "listId is undefined"])]
  ∧ fst (TaskListScreen.loadInitialData API_BASE_URL state listId wlist get)
    = [TaskListScreen.Client (ConsoleError [LText "listId is undefined"]);
       TaskListScreen.SetIsLoading false].
Proof.
  intros Hfalsy. unfold_screen.
  destruct listId as [l|]; [rewrite Hfalsy|]; repeat split.
Qed.

Lemma handlers_without_list_id_witness :
  trace (TaskListScreen.toggleStatus base_url (Some "") T1
           (Axios.Answered (ok None) T1_closed) (Axios.Answered (ok None) [T1_closed]))
  = [ConsoleError [LText "listId is undefined"]].
Proof.
  apply (handlers_without_list_id base_url initialState (Some "") T1
           (Axios.Answered (ok None) T1_closed) (Axios.Answered (ok None) [T1_closed])
           (Axios.Answered (ok None) tt) (Axios.Answered (ok None) L1) eq_refl).
Defined.

(** X23: when the PUT of a toggle fails, the toggle makes no second
    request (the chained fetch is never started), dispatches nothing,
    so the store is as before, and the failure is logged twice, once by
    the client and once by the handler. *)
Theorem toggle_put_failed (API_BASE_URL l : string) (state : AppState) (task : Task.t)
    (put : Axios.Wire Task.t) (get : Axios.Wire (list Task.t)) :
  l ≠ "" →
  Axios.failed put = true →
  length (requests (trace (TaskListScreen.toggleStatus API_BASE_URL (Some l) task put get)))
  = 1%nat
  ∧ dispatched (trace (TaskListScreen.toggleStatus API_BASE_URL (Some l) task put get))
    = []
  ∧ after state (trace (TaskListScreen.toggleStatus API_BASE_URL (Some l) task put get))
    = Some state
  ∧ errors_logged (trace (TaskListScreen.toggleStatus API_BASE_URL (Some l) task put get))
    = 2%nat.
Proof.
  intros Hl Hfail. destruct (failed_rejects put Hfail) as [error Hrej].
  unfold_screen. unfold TaskListScreen.truthy.
  rewrite (bool_decide_eq_false_2 _ Hl). simpl. rewrite Hrej. simpl.
  repeat split.
Qed.

Lemma toggle_put_failed_witness :
  after one_task_state
    (trace (TaskListScreen.toggleStatus base_url (Some "L1") T1
              (Axios.Answered server_error T1) (Axios.Answered (ok None) [T1_closed])))
  = Some one_task_state.
Proof.
  assert (Hl : "L1" ≠ "") by discriminate.
  apply (toggle_put_failed base_url "L1" one_task_state T1
           (Axios.Answered server_error T1) (Axios.Answered (ok None) [T1_closed])
           Hl eq_refl).
Defined.

(** X24: the task a toggle sends is the task it was given with the
    status flipped and every other field kept; toggling the task that
    was sent sends the original task again. *)
Theorem toggle_flips_status (API_BASE_URL l : string) (task : Task.t)
    (put : Axios.Wire Task.t) (get : Axios.Wire (list Task.t)) :
  l ≠ "" →
  ∃ sent,
    head (requests (trace (TaskListScreen.toggleStatus API_BASE_URL (Some l) task put get)))
    = Some (PUT, api.task_url API_BASE_URL l (Task.id task), TaskBody sent)
    ∧ Task.status sent ≠ Task.status task
    ∧ Task.with_status sent (Task.status task) = task
    ∧ ∀ put' get',
        head (requests (trace (TaskListScreen.toggleStatus API_BASE_URL (Some l) sent
                                 put' get')))
        = Some (PUT, api.task_url API_BASE_URL l (Task.id task), TaskBody task).
Proof.
  intros Hl.
  assert (Hhead : ∀ t put' get',
            head (requests (trace (TaskListScreen.toggleStatus API_BASE_URL (Some l) t
                                     put' get')))
            = Some (PUT, api.task_url API_BASE_URL l (Task.id t),
                    TaskBody (Task.with_status t
                                (if bool_decide (Task.status t = CLOSED)
                                 then OPEN else CLOSED)))).
  { intros t put' get'. unfold_screen. unfold TaskListScreen.truthy.
    rewrite (bool_decide_eq_false_2 _ Hl). simpl.
    settle_with put'; [reflexivity|]. settle_with get'; reflexivity. }
  eexists. split; [apply Hhead|].
  split; [|split].
  - unfold Task.with_status. simpl. destruct (Task.status task); simpl; discriminate.
  - destruct task as [i li ti pr du st]. reflexivity.
  - intros put' get'. rewrite Hhead.
    destruct task as [i li ti pr du st]. destruct st; reflexivity.
Qed.

Lemma toggle_flips_status_witness :
  head (requests (trace (TaskListScreen.toggleStatus base_url (Some "L1") T1_closed
                           (Axios.Answered (ok None) T1) (Axios.Unreachable "timeout"))))
  = Some (PUT, api.task_url base_url "L1" "T1", TaskBody T1).
Proof.
  assert (Hl : "L1" ≠ "") by discriminate.
  destruct (toggle_flips_status base_url "L1" T1
              (Axios.Answered (ok None) T1_closed) (Axios.Unreachable "timeout") Hl)
    as (sent & Hsent & _ & _ & Hback).
  vm_compute in Hsent. injection Hsent as <-. apply Hback.
Defined.

(** X25: when both requests of a toggle succeed on a list whose slice
    the store holds, the store ends in the state a lone FETCH_TASKS of
    the fetched tasks would have given: the slice is what the server
    listed, whatever the PUT returned. *)
Theorem toggle_ends_with_fetch (API_BASE_URL l : string) (state : AppState)
    (ts fetched : list Task.t) (task saved : Task.t) (r r' : Axios.Response) :
  l ≠ "" →
  tasks state !! l = Some ts →
  Axios.validateStatus (Axios.status r) = true →
  Axios.validateStatus (Axios.status r') = true →
  after state
    (trace (TaskListScreen.toggleStatus API_BASE_URL (Some l) task
              (Axios.Answered r saved) (Axios.Answered r' fetched)))
  = reducer state (FETCH_TASKS l fetched).
Proof.
  intros Hl Hts Hr Hr'. unfold_screen. unfold TaskListScreen.truthy.
  rewrite (bool_decide_eq_false_2 _ Hl). simpl. rewrite Hr. simpl. rewrite Hr'. simpl.
  rewrite (read_own _ _ _ Hts). simpl. rewrite insert_insert_eq. reflexivity.
Qed.

Lemma toggle_ends_with_fetch_witness :
  after one_task_state
    (trace (TaskListScreen.toggleStatus base_url (Some "L1") T1
              (Axios.Answered (ok None) T1_closed) (Axios.Answered (ok None) [T1'; T2])))
  = reducer one_task_state (FETCH_TASKS "L1" [T1'; T2]).
Proof.
  assert (Hl : "L1" ≠ "") by discriminate.
  apply (toggle_ends_with_fetch base_url "L1" one_task_state [T1] [T1'; T2] T1 T1_closed
           (ok None) (ok None) Hl eq_refl eq_refl eq_refl).
Defined.

(** X26: loading always ends by clearing the spinner: the last thing
    the effect does is set [isLoading] to false, whatever the network
    answers; with a usable list id the first thing it does is set it to
    true. *)
Theorem loadInitialData_clears_spinner (API_BASE_URL : string) (state : AppState)
    (listId : option string) (wlist : Axios.Wire TaskList.t)
    (wtasks : Axios.Wire (list Task.t)) :
  last (fst (TaskListScreen.loadInitialData API_BASE_URL state listId wlist wtasks))
  = Some (TaskListScreen.SetIsLoading false)
  ∧ (TaskListScreen.truthy listId = true →
     head (fst (TaskListScreen.loadInitialData API_BASE_URL state listId wlist wtasks))
     = Some (TaskListScreen.SetIsLoading true)).
Proof.
  unfold_screen.
  destruct listId as [l|]; [|split; [reflexivity|discriminate]].
  destruct (TaskListScreen.truthy (Some l)); [|split; [reflexivity|discriminate]].
  destruct (TaskListScreen.taskList state (Some l));
    settle_with wlist; settle_with wtasks; split; reflexivity.
Qed.

Lemma loadInitialData_clears_spinner_witness :
  head (fst (TaskListScreen.loadInitialData base_url initialState (Some "L1")
               (Axios.Unreachable "timeout") (Axios.Unreachable "timeout")))
  = Some (TaskListScreen.SetIsLoading true).
Proof.
  apply (loadInitialData_clears_spinner base_url initialState (Some "L1")
           (Axios.Unreachable "timeout") (Axios.Unreachable "timeout")).
  reflexivity.
Defined.

(** X27: loading asks for the list only when the store does not know
    it, and asks for the tasks unless that first request failed: a
    known list costs one request (the tasks), an unknown one two (list,
    then tasks), and a failed list request is the only request, after
    which nothing is dispatched. *)
Theorem loadInitialData_requests (API_BASE_URL l : string) (state : AppState)
    (wlist : Axios.Wire TaskList.t) (wtasks : Axios.Wire (list Task.t)) :
  l ≠ "" →
  requests (TaskListScreen.client_events
              (fst (TaskListScreen.loadInitialData API_BASE_URL state (Some l)
                      wlist wtasks)))
  = match TaskListScreen.taskList state (Some l) with
    | Some _ => [(GET, api.tasks_url API_BASE_URL l, NoBody)]
    | None =>
        (GET, api.list_url API_BASE_URL l, NoBody)
        :: (if Axios.failed wlist then []
            else [(GET, api.tasks_url API_BASE_URL l, NoBody)])
    end
  ∧ (TaskListScreen.taskList state (Some l) = None → Axios.failed wlist = true →
     dispatched (TaskListScreen.client_events
                   (fst (TaskListScreen.loadInitialData API_BASE_URL state (Some l)
                           wlist wtasks)))
     = []).
Proof.
  intros Hl. unfold_screen. unfold TaskListScreen.truthy.
  rewrite (bool_decide_eq_false_2 _ Hl). simpl.
  destruct (TaskListScreen.taskList state (Some l));
    settle_with wlist; settle_with wtasks; rewrite ?Hf;
    split; try reflexivity; intros; congruence.
Qed.

Lemma loadInitialData_requests_witness :
  requests (TaskListScreen.client_events
              (fst (TaskListScreen.loadInitialData base_url scenario_state (Some "L1")
                      (Axios.Unreachable "timeout") (Axios.Answered (ok None) [T1]))))
  = [(GET, api.tasks_url base_url "L1", NoBody)].
Proof.
  assert (Hl : "L1" ≠ "") by discriminate.
  apply (loadInitialData_requests base_url "L1" scenario_state
           (Axios.Unreachable "timeout") (Axios.Answered (ok None) [T1]) Hl).
Defined.

(** X28: a failed request for the tasks does not fail the load: it is
    answered with the log line "Tasks not available yet", no
    FETCH_TASKS is dispatched, and the [tasks] mapping of the store is
    what it was; a list fetched just before is kept. *)
Theorem loadInitialData_tasks_unavailable (API_BASE_URL l : string) (state : AppState)
    (wlist : Axios.Wire TaskList.t) (wtasks : Axios.Wire (list Task.t)) :
  l ≠ "" →
  Axios.failed wtasks = true →
  TaskListScreen.taskList state (Some l) ≠ None ∨ Axios.failed wlist = false →
  last (TaskListScreen.client_events
          (fst (TaskListScreen.loadInitialData API_BASE_URL state (Some l) wlist wtasks)))
  = Some (ConsoleLog [LText "Tasks not available yet"])
  ∧ ∃ state',
      after state
        (TaskListScreen.client_events
           (fst (TaskListScreen.loadInitialData API_BASE_URL state (Some l)
                   wlist wtasks)))
      = Some state'
      ∧ tasks state' = tasks state
      ∧ (TaskListScreen.taskList state (Some l) = None →
         ∃ data, Axios.settle wlist = Axios.Fulfilled data
                 ∧ reducer state (GET_TASKLIST data) = Some state').
Proof.
  intros Hl Hfail Hlist. destruct (failed_rejects wtasks Hfail) as [error Hrej].
  unfold_screen. unfold TaskListScreen.truthy.
  rewrite (bool_decide_eq_false_2 _ Hl). simpl.
  destruct (TaskListScreen.taskList state (Some l)) as [known|] eqn:Hknown.
  - simpl. rewrite Hrej. simpl. split; [reflexivity|].
    exists state. split; [reflexivity|]. split; [reflexivity|]. discriminate.
  - destruct Hlist as [Hlist|Hlist]; [congruence|].
    destruct (settle_cases wlist) as [[Hf _]|[_ [data Hs]]]; [congruence|].
    rewrite Hs. simpl. rewrite Hrej. simpl. split; [reflexivity|].
    eexists. split; [reflexivity|]. split; [reflexivity|].
    intros _. exists data. split; reflexivity.
Qed.

Lemma loadInitialData_tasks_unavailable_witness :
  ∃ state',
    after initialState
      (TaskListScreen.client_events
         (fst (TaskListScreen.loadInitialData base_url initialState (Some "L1")
                 (Axios.Answered (ok None) L1) (Axios.Answered server_error []))))
    = Some state'
    ∧ tasks state' = tasks initialState.
Proof.
  assert (Hl : "L1" ≠ "") by discriminate.
  destruct (loadInitialData_tasks_unavailable base_url "L1" initialState
              (Axios.Answered (ok None) L1) (Axios.Answered server_error [])
              Hl eq_refl (or_intror eq_refl))
    as (_ & state' & Hafter & Htasks & _).
  exists state'. split; [exact Hafter|exact Htasks].
Defined.

(** X29: the screen's delete-list action goes home exactly when it had a
    usable list id and the request did not fail; when it does, the
    navigation comes last, after DELETE_TASKLIST has been dispatched. *)
Theorem deleteTaskList_navigates (API_BASE_URL : string) (listId : option string)
    (w : Axios.Wire unit) :
  (TaskListScreen.Navigate "/"
   ∈ fst (TaskListScreen.deleteTaskList API_BASE_URL listId w)
   ↔ TaskListScreen.truthy listId = true ∧ Axios.failed w = false)
  ∧ ∀ l, listId = Some l → l ≠ "" → Axios.failed w = false →
      fst (TaskListScreen.deleteTaskList API_BASE_URL listId w)
      = [TaskListScreen.Client (Request DELETE (api.list_url API_BASE_URL l) NoBody);
         TaskListScreen.Client (Dispatch (DELETE_TASKLIST l));
         TaskListScreen.Navigate "/"].
Proof.
  assert (Hnot : ∀ ev, TaskListScreen.Navigate "/" ∈ [TaskListScreen.Client ev] → False).
  { intros ev Hin. apply list_elem_of_singleton in Hin. discriminate Hin. }
  unfold_screen. split.
  - destruct listId as [l|]; simpl.
    + unfold TaskListScreen.truthy. destruct (bool_decide (l = "")); simpl.
      2: settle_with w; rewrite Hf.
      * split; [intros Hin; exfalso; exact (Hnot _ Hin)|intros [? _]; discriminate].
      * split; [|intros [_ ?]; discriminate]. intros Hin.
        apply elem_of_cons in Hin as [Hin|Hin]; [discriminate Hin|].
        apply elem_of_cons in Hin as [Hin|Hin]; [discriminate Hin|].
        exfalso. exact (Hnot _ Hin).
      * split; [auto|]. intros _. do 2 right. left.
    + split; [intros Hin; exfalso; exact (Hnot _ Hin)|intros [? _]; discriminate].
  - intros l -> Hl Hok. unfold TaskListScreen.truthy.
    rewrite (bool_decide_eq_false_2 _ Hl). simpl.
    destruct (settle_cases w) as [[Hf _]|[_ [data Hs]]]; [congruence|].
    rewrite Hs. reflexivity.
Qed.

Lemma deleteTaskList_navigates_witness :
  fst (TaskListScreen.deleteTaskList base_url (Some "L1") (Axios.Answered (ok None) tt))
  = [TaskListScreen.Client (Request DELETE (api.list_url base_url "L1") NoBody);
     TaskListScreen.Client (Dispatch (DELETE_TASKLIST "L1"));
     TaskListScreen.Navigate "/"].
Proof.
  assert (Hl : "L1" ≠ "") by discriminate.
  destruct (deleteTaskList_navigates base_url (Some "L1") (Axios.Answered (ok None) tt))
    as [_ Hgo].
  apply (Hgo "L1" eq_refl Hl eq_refl).
Defined.

(** X30: clicking delete on a row of the slice on screen removes, when
    the server accepts, the entries with that task's id from the slice
    and nothing else; when the request fails the store is as before. *)
Theorem onClick_deleteTask_effect (API_BASE_URL l : string) (state : AppState)
    (ts : list Task.t) (task : Task.t) (w : Axios.Wire unit) :
  l ≠ "" →
  tasks state !! l = Some ts →
  ∃ state',
    after state (trace (TaskListScreen.onClick_deleteTask API_BASE_URL (Some l) task w))
    = Some state'
    ∧ (Axios.failed w = true → state' = state)
    ∧ (Axios.failed w = false →
       taskLists state' = taskLists state
       ∧ (Task.id task ∉ ids (slice_or_empty (tasks state') l))
       ∧ ∀ t, t ∈ slice_or_empty (tasks state') l ↔ t ∈ ts ∧ Task.id t ≠ Task.id task).
Proof.
  intros Hl Hts. unfold_screen. unfold TaskListScreen.truthy.
  rewrite (bool_decide_eq_false_2 _ Hl). simpl.
  settle_with w; rewrite Hf.
  - exists state. split; [reflexivity|]. split; [reflexivity|discriminate].
  - rewrite (read_own _ _ _ Hts). simpl.
    eexists. split; [reflexivity|]. split; [discriminate|].
    intros _. simpl. rewrite slice_after_insert. split; [reflexivity|]. split.
    + unfold ids. intros Hin. apply list_elem_of_fmap in Hin as (t & Hid & Hin).
      apply list_elem_of_filter in Hin as [Hne _]. congruence.
    + intros t. rewrite list_elem_of_filter. tauto.
Qed.

Lemma onClick_deleteTask_effect_witness :
  ∃ state',
    after one_task_state
      (trace (TaskListScreen.onClick_deleteTask base_url (Some "L1") T1
                (Axios.Answered (ok None) tt)))
    = Some state'
    ∧ ("T1" ∉ ids (slice_or_empty (tasks state') "L1")).
Proof.
  assert (Hl : "L1" ≠ "") by discriminate.
  destruct (onClick_deleteTask_effect base_url "L1" one_task_state [T1] T1
              (Axios.Answered (ok None) tt) Hl eq_refl)
    as (state' & Hafter & _ & Hok).
  exists state'. split; [exact Hafter|]. apply Hok. reflexivity.
Defined.
